(** * A shallow embedding of the [ansi] package of slzatz/glamour

    The development follows the Go sources file by file: [style.go] (the
    style cascade), [kitty_text_sizing.go] (OSC 66 metadata, the base64
    marker scheme and the capability probe), [baseelement.go] (token
    rendering), [heading.go] (heading entry and finalisation) and the two
    image renderers.  Go strings are byte sequences and are modelled as
    lists of [ascii]; Go's [uint] and [int] are 64-bit and are modelled as
    [Z] with the wrap-around written out where an operation can overflow.

    Part I holds the definitions, Part II the properties. *)

From Stdlib Require Import ZArith Ascii String List Lia Bool DecimalString.
From stdpp Require Import base option list.
Import ListNotations.

(* ===================================================================== *)
(** * Part I: definitions                                                 *)
(* ===================================================================== *)

(** ** Go strings *)

(** A Go [string] is an immutable sequence of bytes. *)
Abbreviation bytes := (list ascii) (only parsing).

(** String literals of the sources. *)
Definition lit (s : string) : bytes := list_ascii_of_string s.

(** Byte equality, [a == b] on bytes. *)
Definition byte_eqb (a b : ascii) : bool := Ascii.eqb a b.

(** [strings.HasPrefix(s, p)]. *)
Fixpoint HasPrefix (s p : bytes) {struct p} : bool :=
  match p, s with
  | [], _ => true
  | _ :: _, [] => false
  | c :: p', d :: s' => byte_eqb c d && HasPrefix s' p'
  end.

(** [strings.Index(s, sep)]: the offset of the first instance of [sep] in
    [s]; [None] stands for Go's [-1]. *)
Fixpoint Index (s sep : bytes) : option nat :=
  if HasPrefix s sep then Some 0
  else match s with
       | [] => None
       | _ :: s' => S <$> Index s' sep
       end.

(** [strings.Join(parts, sep)]. *)
Fixpoint Join (parts : list bytes) (sep : bytes) : bytes :=
  match parts with
  | [] => []
  | [p] => p
  | p :: rest => p ++ sep ++ Join rest sep
  end.

(** [fmt.Sprintf("%d", n)]: the decimal digits of [n], with a leading minus
    sign for negative numbers. *)
Definition fmt_d (n : Z) : bytes := lit (NilEmpty.string_of_int (Z.to_int n)).

(** ** Machine integers *)

(** Go's [int] and [uint] are 64 bits wide on the supported platforms. *)
Definition int_min : Z := - 2 ^ 63.
Definition int_max : Z := 2 ^ 63 - 1.
Definition uint_max : Z := 2 ^ 64 - 1.

(** Two's complement wrap-around of a mathematical integer into [int]. *)
Definition wrap_int (z : Z) : Z := (z + 2 ^ 63) mod 2 ^ 64 - 2 ^ 63.

(** The conversion [int(x)] of a [uint]. *)
Definition int_of_uint (x : Z) : Z := wrap_int x.

(** [a - b] on [int]. *)
Definition int_sub (a b : Z) : Z := wrap_int (a - b).

(** ** style.go *)

(** [StylePrimitive]: pointer-typed fields are optional values ([nil] is
    [None]); [string] fields use the empty string for "not configured". *)
Record StylePrimitive : Type := mkStylePrimitive {
  BlockPrefix : bytes;
  BlockSuffix : bytes;
  Prefix : bytes;
  PrefixColor : option bytes;
  Suffix : bytes;
  Color : option bytes;
  BackgroundColor : option bytes;
  Underline : option bool;
  Bold : option bool;
  Upper : option bool;
  Lower : option bool;
  Title : option bool;
  Italic : option bool;
  CrossedOut : option bool;
  Faint : option bool;
  Conceal : option bool;
  Overlined : option bool;
  Inverse : option bool;
  Blink : option bool;
  Format : bytes;
  KittyScale : option Z;
  KittyWidth : option Z;
  KittyNumerator : option Z;
  KittyDenominator : option Z;
  KittyVAlign : option Z;
  KittyHAlign : option Z
}.

(** The zero value [StylePrimitive{}]. *)
Definition zeroStylePrimitive : StylePrimitive :=
  mkStylePrimitive [] [] [] None [] None None None None None None None None
    None None None None None None [] None None None None None None.

(** [StyleBlock] embeds a [StylePrimitive]. *)
Record StyleBlock : Type := mkStyleBlock {
  primitive : StylePrimitive;
  Indent : option Z;
  IndentToken : option bytes;
  Margin : option Z
}.

Definition zeroStyleBlock : StyleBlock :=
  mkStyleBlock zeroStylePrimitive None None None.

(** [if child.F != nil { s.F = child.F }] after [s.F = parent.F]. *)
Definition override {A : Type} (parent child : option A) : option A :=
  match child with
  | Some v => Some v
  | None => parent
  end.

(** The framing strings: [s := child] first, then [s.F = parent.F] under
    [toBlock], then [s.F = child.F] unless [child.F] is empty. *)
Definition frame (toBlock : bool) (parent child : bytes) : bytes :=
  let s := if toBlock then parent else child in
  match child with
  | [] => s
  | _ :: _ => child
  end.

(** [Format] is only ever assigned from the child: [s := child] and then
    [s.Format = child.Format] when [child.Format] is not empty. *)
Definition cascadeFormat (child : bytes) : bytes :=
  match child with
  | [] => child
  | _ :: _ => child
  end.

Definition cascadeStylePrimitive (parent child : StylePrimitive)
    (toBlock : bool) : StylePrimitive :=
  {| BlockPrefix := frame toBlock (BlockPrefix parent) (BlockPrefix child);
     BlockSuffix := frame toBlock (BlockSuffix parent) (BlockSuffix child);
     Prefix := frame toBlock (Prefix parent) (Prefix child);
     PrefixColor := PrefixColor child;
     Suffix := frame toBlock (Suffix parent) (Suffix child);
     Color := override (Color parent) (Color child);
     BackgroundColor := override (BackgroundColor parent) (BackgroundColor child);
     Underline := override (Underline parent) (Underline child);
     Bold := override (Bold parent) (Bold child);
     Upper := override (Upper parent) (Upper child);
     Lower := override (Lower parent) (Lower child);
     Title := override (Title parent) (Title child);
     Italic := override (Italic parent) (Italic child);
     CrossedOut := override (CrossedOut parent) (CrossedOut child);
     Faint := override (Faint parent) (Faint child);
     Conceal := override (Conceal parent) (Conceal child);
     Overlined := override (Overlined parent) (Overlined child);
     Inverse := override (Inverse parent) (Inverse child);
     Blink := override (Blink parent) (Blink child);
     Format := cascadeFormat (Format child);
     KittyScale := override (KittyScale parent) (KittyScale child);
     KittyWidth := override (KittyWidth parent) (KittyWidth child);
     KittyNumerator := override (KittyNumerator parent) (KittyNumerator child);
     KittyDenominator :=
       override (KittyDenominator parent) (KittyDenominator child);
     KittyVAlign := override (KittyVAlign parent) (KittyVAlign child);
     KittyHAlign := override (KittyHAlign parent) (KittyHAlign child) |}.

(** [cascadeStyle]: [Indent] and [Margin] come from the parent under
    [toBlock]; only [Indent] has a child override. *)
Definition cascadeStyle (parent child : StyleBlock) (toBlock : bool)
    : StyleBlock :=
  {| primitive := cascadeStylePrimitive (primitive parent) (primitive child) toBlock;
     Indent := override (if toBlock then Indent parent else Indent child)
                        (Indent child);
     IndentToken := IndentToken child;
     Margin := if toBlock then Margin parent else Margin child |}.

(** [cascadeStyles(s...)]: a left fold from the zero value. *)
Definition cascadeStyles (s : list StyleBlock) : StyleBlock :=
  fold_left (fun r v => cascadeStyle r v true) s zeroStyleBlock.

Definition cascadeStylePrimitives (s : list StylePrimitive) : StylePrimitive :=
  fold_left (fun r v => cascadeStylePrimitive r v true) s zeroStylePrimitive.

(** ** Outcomes of Go code *)

(** A Go function either returns or panics.  Loops whose termination is
    not syntactically evident are run with fuel; [OutOfFuel] is shown
    unreachable in Part II. *)
Inductive outcome (A : Type) : Type :=
  | Returns (a : A)
  | Panics
  | OutOfFuel.
Arguments Returns {A} a.
Arguments Panics {A}.
Arguments OutOfFuel {A}.

(** Slice expressions.  [s[lo:hi]] panics unless [lo <= hi <= len(s)]. *)
Definition slice (s : bytes) (lo hi : nat) : option bytes :=
  if (lo <=? hi) && (hi <=? length s) then Some (take (hi - lo) (drop lo s))
  else None.

(** [s[:hi]]. *)
Definition slice_to (s : bytes) (hi : nat) : option bytes := slice s 0 hi.

(** [s[lo:]]. *)
Definition slice_from (s : bytes) (lo : nat) : option bytes :=
  slice s lo (length s).

(** ** encoding/base64, [StdEncoding] *)

Module Base64.

(** The numeric value of a byte, [uint(b)]. *)
Definition val_of (b : ascii) : Z := Z.of_N (N_of_ascii b).

(** The conversion [byte(v)], which keeps the low eight bits. *)
Definition byte_of (v : Z) : ascii := ascii_of_N (Z.to_N (v mod 256)).

(** [encodeStd], the standard alphabet. *)
Definition encodeStd : bytes :=
  lit "ABCDEFGHIJKLMNOPQRSTUVWXYZabcdefghijklmnopqrstuvwxyz0123456789+/".

(** [StdPadding]. *)
Definition padChar : ascii := "="%char.

(** [enc.encode[i]]. *)
Definition encode (i : Z) : ascii := nth (Z.to_nat i) encodeStd "000"%char.

(** The position of a byte in the alphabet. *)
Fixpoint position (c : ascii) (alphabet : bytes) (i : Z) : option Z :=
  match alphabet with
  | [] => None
  | d :: alphabet' =>
      if byte_eqb c d then Some i else position c alphabet' (i + 1)
  end.

(** [enc.decodeMap[c]]: the table is filled with [0xFF] and then
    [decodeMap[encoder[i]] = i] for each index of the alphabet. *)
Definition decodeMap (c : ascii) : Z :=
  match position c encodeStd 0 with
  | Some i => i
  | None => 255
  end.

(** [Encode]: three source bytes become four alphabet characters; a final
    group of one or two bytes is padded with ['=']. *)
Fixpoint Encode (src : bytes) : bytes :=
  match src with
  | [] => []
  | [a] =>
      let val := Z.shiftl (val_of a) 16 in
      [encode (Z.land (Z.shiftr val 18) 63);
       encode (Z.land (Z.shiftr val 12) 63);
       padChar; padChar]
  | [a; b] =>
      let val := Z.lor (Z.shiftl (val_of a) 16) (Z.shiftl (val_of b) 8) in
      [encode (Z.land (Z.shiftr val 18) 63);
       encode (Z.land (Z.shiftr val 12) 63);
       encode (Z.land (Z.shiftr val 6) 63);
       padChar]
  | a :: b :: c :: rest =>
      let val := Z.lor (Z.lor (Z.shiftl (val_of a) 16) (Z.shiftl (val_of b) 8))
                       (val_of c) in
      encode (Z.land (Z.shiftr val 18) 63)
      :: encode (Z.land (Z.shiftr val 12) 63)
      :: encode (Z.land (Z.shiftr val 6) 63)
      :: encode (Z.land val 63)
      :: Encode rest
  end.

(** [EncodeToString]. *)
Definition EncodeToString (src : bytes) : bytes := Encode src.

(** The sextets collected so far in the current quantum
    ([dbuf[0..j-1]] of [decodeQuantum]). *)
Inductive quantum : Type :=
  | Q0
  | Q1 (d0 : Z)
  | Q2 (d0 d1 : Z)
  | Q3 (d0 d1 d2 : Z).

(** [val := uint(dbuf[0])<<18 | uint(dbuf[1])<<12 | uint(dbuf[2])<<6 |
    uint(dbuf[3])]. *)
Definition assemble (d0 d1 d2 d3 : Z) : Z :=
  Z.lor (Z.lor (Z.lor (Z.shiftl d0 18) (Z.shiftl d1 12)) (Z.shiftl d2 6)) d3.

Definition isNewline (c : ascii) : bool :=
  byte_eqb c "010"%char || byte_eqb c "013"%char.

(** [for si < len(src) && (src[si] == '\n' || src[si] == '\r') { si++ }]. *)
Fixpoint skipNewlines (src : bytes) : bytes :=
  match src with
  | [] => []
  | c :: rest => if isNewline c then skipNewlines rest else src
  end.

(** [Decode], as the repetition of [decodeQuantum] (the 8- and 4-byte fast
    paths of the library decode the same quanta).  [None] is a
    [CorruptInputError].  Line breaks are skipped, padding is mandatory,
    nothing but line breaks may follow the padding, and the unused low bits
    of a padded quantum are not inspected (the encoding is not strict). *)
Fixpoint Decode (src : bytes) (q : quantum) : option bytes :=
  match src with
  | [] =>
      match q with
      | Q0 => Some []
      | _ => None
      end
  | c :: rest =>
      let out := decodeMap c in
      if negb (out =? 255)%Z then
        match q with
        | Q0 => Decode rest (Q1 out)
        | Q1 d0 => Decode rest (Q2 d0 out)
        | Q2 d0 d1 => Decode rest (Q3 d0 d1 out)
        | Q3 d0 d1 d2 =>
            let val := assemble d0 d1 d2 out in
            (fun tl => byte_of (Z.shiftr val 16) :: byte_of (Z.shiftr val 8)
                       :: byte_of (Z.shiftr val 0) :: tl)
              <$> Decode rest Q0
        end
      else if isNewline c then Decode rest q
      else if negb (byte_eqb c padChar) then None
      else
        match q with
        | Q0 | Q1 _ => None
        | Q2 d0 d1 =>
            match skipNewlines rest with
            | [] => None
            | c2 :: rest2 =>
                if negb (byte_eqb c2 padChar) then None
                else
                  match skipNewlines rest2 with
                  | [] =>
                      let val := assemble d0 d1 0 0 in
                      Some [byte_of (Z.shiftr val 16)]
                  | _ :: _ => None
                  end
            end
        | Q3 d0 d1 d2 =>
            match skipNewlines rest with
            | [] =>
                let val := assemble d0 d1 d2 0 in
                Some [byte_of (Z.shiftr val 16); byte_of (Z.shiftr val 8)]
            | _ :: _ => None
            end
        end
  end.

(** [DecodeString]. *)
Definition DecodeString (s : bytes) : option bytes := Decode s Q0.

(** The number of sextets a partial quantum holds ([j] in
    [decodeQuantum]). *)
Definition held (q : quantum) : nat :=
  match q with
  | Q0 => 0
  | Q1 _ => 1
  | Q2 _ _ => 2
  | Q3 _ _ _ => 3
  end.

(** The characters an encoding is made of: those of the alphabet and the
    padding character. *)
Definition alphabetic (c : ascii) : bool :=
  negb (decodeMap c =? 255)%Z || byte_eqb c padChar.

End Base64.

(** ** Errors and writers *)

(** Go's [error] values, identified by their message. *)
Inductive error : Type := Error (msg : bytes).

(** [io.Writer]: a write yields the writer's next state and possibly an
    error. *)
Class Writer (W : Type) : Type := {
  Write : W -> bytes -> W * option error
}.

(** [bytes.Buffer] appends and never fails. *)
#[export] Instance BufferWriter : Writer bytes := {
  Write buf p := (buf ++ p, None)
}.

(** A writer whose sink is gone: it accepts nothing and reports an error,
    as a closed pipe or a full disk does. *)
Inductive ClosedWriter : Type := closedWriter.

#[export] Instance ClosedWriter_Writer : Writer ClosedWriter := {
  Write w _ := (w, Some (Error (lit "write: broken pipe")))
}.

(** [_, _ = io.WriteString(w, s)]: the error is discarded. *)
Definition WriteString {W : Type} {WW : Writer W} (w : W) (s : bytes) : W :=
  fst (Write w s).

(** ** termenv *)

Module termenv.

(** [CSI] and the SGR codes of the library. *)
Definition ESC : ascii := "027"%char.
Definition CSI : bytes := ESC :: lit "[".
Definition ResetSeq : bytes := lit "0".
Definition BoldSeq : bytes := lit "1".
Definition FaintSeq : bytes := lit "2".
Definition ItalicSeq : bytes := lit "3".
Definition UnderlineSeq : bytes := lit "4".
Definition BlinkSeq : bytes := lit "5".
Definition ReverseSeq : bytes := lit "7".
Definition CrossOutSeq : bytes := lit "9".
Definition OverlineSeq : bytes := lit "53".

(** A colour profile.  [Sequence p name bg] is [p.Color(name)] followed by
    [Sequence(bg)] on the colour; [None] when [p.Color] returns [nil]
    (a name the profile cannot parse). *)
Record Profile : Type := mkProfile {
  Sequence : bytes -> bool -> option bytes
}.

(** [termenv.Style]: the text and the SGR codes attached so far. *)
Record Style : Type := mkStyle {
  text : bytes;
  styles : list bytes
}.

(** [termenv.String(s)]. *)
Definition String (s : bytes) : Style := mkStyle s [].

(** [t.styles = append(t.styles, seq)]. *)
Definition add (t : Style) (seq : bytes) : Style :=
  mkStyle (text t) (styles t ++ [seq]).

(** [Foreground] and [Background] append the colour's sequence unless the
    colour is [nil]. *)
Definition Foreground (t : Style) (c : option bytes) : Style :=
  match c with
  | Some seq => add t seq
  | None => t
  end.

Definition Background (t : Style) (c : option bytes) : Style :=
  match c with
  | Some seq => add t seq
  | None => t
  end.

(** [Styled]: no codes, or only empty ones, leave the text bare.  A style
    made by [termenv.String] carries the ANSI profile, so the shortcut
    that [Styled] takes for the [Ascii] profile never applies. *)
Definition Styled (t : Style) : bytes :=
  match styles t with
  | [] => text t
  | _ :: _ =>
      match Join (styles t) (lit ";") with
      | [] => text t
      | seq => CSI ++ seq ++ lit "m" ++ text t ++ (CSI ++ ResetSeq) ++ lit "m"
      end
  end.

End termenv.

(** [rules.F != nil && *rules.F]. *)
Definition isTrue (b : option bool) : bool :=
  match b with
  | Some true => true
  | _ => false
  end.

(** [if cond { out = f(out) }]. *)
Definition when (cond : bool) (f : termenv.Style -> termenv.Style)
    (out : termenv.Style) : termenv.Style :=
  if cond then f out else out.

(** The chain of attribute tests shared by [renderText], [applyANSIStyles]
    and [buildANSIWrapper], in source order: foreground, background,
    underline, bold, italic, crossed-out, overlined, inverse, blink. *)
Definition decorate (p : termenv.Profile) (rules : StylePrimitive)
    (out : termenv.Style) : termenv.Style :=
  let out :=
    match Color rules with
    | Some c => termenv.Foreground out (termenv.Sequence p c false)
    | None => out
    end in
  let out :=
    match BackgroundColor rules with
    | Some c => termenv.Background out (termenv.Sequence p c true)
    | None => out
    end in
  let out := when (isTrue (Underline rules))
               (fun t => termenv.add t termenv.UnderlineSeq) out in
  let out := when (isTrue (Bold rules))
               (fun t => termenv.add t termenv.BoldSeq) out in
  let out := when (isTrue (Italic rules))
               (fun t => termenv.add t termenv.ItalicSeq) out in
  let out := when (isTrue (CrossedOut rules))
               (fun t => termenv.add t termenv.CrossOutSeq) out in
  let out := when (isTrue (Overlined rules))
               (fun t => termenv.add t termenv.OverlineSeq) out in
  let out := when (isTrue (Inverse rules))
               (fun t => termenv.add t termenv.ReverseSeq) out in
  when (isTrue (Blink rules)) (fun t => termenv.add t termenv.BlinkSeq) out.

(** ** kitty_text_sizing.go *)

(** [rules.F != nil]. *)
Definition isSet {A : Type} (field : option A) : bool :=
  match field with
  | Some _ => true
  | None => false
  end.

(** [hasKittyTextSizing]. *)
Definition hasKittyTextSizing (rules : StylePrimitive) : bool :=
  isSet (KittyScale rules)
  || isSet (KittyWidth rules)
  || isSet (KittyNumerator rules)
  || isSet (KittyDenominator rules).

(** One step of [buildKittyMetadata]: when the field is set and its value
    [v] passes the range test, [parts = append(parts, fmt.Sprintf("k=%d", v))]. *)
Definition metaPart (key : bytes) (field : option Z) (guard : Z -> bool)
    (parts : list bytes) : list bytes :=
  match field with
  | Some v => if guard v then parts ++ [key ++ lit "=" ++ fmt_d v] else parts
  | None => parts
  end.

(** [buildKittyMetadata]. *)
Definition kittyParts (rules : StylePrimitive) : list bytes :=
  let parts := [] in
  let parts := metaPart (lit "s") (KittyScale rules)
                 (fun v => (1 <? v)%Z && (v <=? 7)%Z) parts in
  let parts := metaPart (lit "w") (KittyWidth rules)
                 (fun v => (v <=? 7)%Z) parts in
  let parts := metaPart (lit "n") (KittyNumerator rules)
                 (fun v => (v <=? 15)%Z) parts in
  let parts := metaPart (lit "d") (KittyDenominator rules)
                 (fun v => (v <=? 15)%Z) parts in
  let parts := metaPart (lit "v") (KittyVAlign rules)
                 (fun v => (v <=? 2)%Z) parts in
  metaPart (lit "h") (KittyHAlign rules) (fun v => (v <=? 2)%Z) parts.

Definition buildKittyMetadata (rules : StylePrimitive) : bytes :=
  Join (kittyParts rules) (lit ":").

(** The attribute chain of [applyANSIStyles] and [buildANSIWrapper], which
    add [Faint] after the shared nine. *)
Definition decorateFaint (p : termenv.Profile) (rules : StylePrimitive)
    (out : termenv.Style) : termenv.Style :=
  when (isTrue (Faint rules)) (fun t => termenv.add t termenv.FaintSeq)
    (decorate p rules out).

(** [applyANSIStyles]. *)
Definition applyANSIStyles (p : termenv.Profile) (rules : StylePrimitive)
    (s : bytes) : bytes :=
  termenv.Styled (decorateFaint p rules (termenv.String s)).

(** [buildANSIWrapper]: the opening codes of a styled empty string and the
    reset sequence. *)
Definition buildANSIWrapper (p : termenv.Profile) (rules : StylePrimitive)
    : bytes * bytes :=
  let styled := termenv.Styled (decorateFaint p rules (termenv.String [])) in
  let resetSeq := termenv.ESC :: lit "[0m" in
  match styled with
  | [] => ([], [])
  | _ :: _ =>
      match Index styled resetSeq with
      | Some idx => (take idx styled, resetSeq)
      | None => ([], [])
      end
  end.

(** [GetKittyScaleRows]. *)
Definition GetKittyScaleRows (rules : StylePrimitive) : Z :=
  match KittyScale rules with
  | Some s => if (1 <? s)%Z then int_sub (int_of_uint s) 1 else 0%Z
  | None => 0%Z
  end.

(** [buildOSC66Output]. *)
Definition buildOSC66Output (p : termenv.Profile) (rules : StylePrimitive)
    (text : bytes) : bytes :=
  let meta := buildKittyMetadata rules in
  match meta with
  | [] => applyANSIStyles p rules text
  | _ :: _ =>
      let '(prefix, suffix) := buildANSIWrapper p rules in
      prefix ++ (termenv.ESC :: lit "]66;") ++ meta ++ lit ";" ++ text
        ++ ["007"%char] ++ suffix
  end.

(** [base64Encode]. *)
Definition base64Encode (s : bytes) : bytes := Base64.EncodeToString s.

(** [base64Decode]; [None] is the error return. *)
Definition base64Decode (s : bytes) : option bytes := Base64.DecodeString s.

Definition markerPrefix : bytes := lit "KITTY_TEXT_SIZE:".
Definition markerSuffix : bytes := lit ":END_KITTY_TEXT_SIZE".

(** The marker written by heading finalisation,
    [fmt.Sprintf("KITTY_TEXT_SIZE:%s:END_KITTY_TEXT_SIZE", base64Encode(s))]. *)
Definition kittyMarker (s : bytes) : bytes :=
  markerPrefix ++ base64Encode s ++ markerSuffix.

(** One iteration of the loop of [DecodeKittyTextSizeMarkers].  [inl r]
    leaves the loop with [r] ([break]); [inr r] goes round again with the
    new [result]; [None] is a slice-bounds panic. *)
Definition decodeStep (result : bytes) : option (bytes + bytes) :=
  match Index result markerPrefix with
  | None => Some (inl result)
  | Some startIdx =>
      tail ← slice_from result startIdx;
      match Index tail markerSuffix with
      | None => Some (inl result)
      | Some endIdx =>
          let endIdx := endIdx + startIdx in
          let b64Start := startIdx + length markerPrefix in
          b64Content ← slice result b64Start endIdx;
          before ← slice_to result startIdx;
          after ← slice_from result (endIdx + length markerSuffix);
          match base64Decode b64Content with
          | None => Some (inr (before ++ after))
          | Some decoded => Some (inr (before ++ decoded ++ after))
          end
      end
  end.

Fixpoint decodeLoop (fuel : nat) (result : bytes) : outcome bytes :=
  match fuel with
  | O => OutOfFuel
  | S fuel' =>
      match decodeStep result with
      | None => Panics
      | Some (inl r) => Returns r
      | Some (inr r) => decodeLoop fuel' r
      end
  end.

(** [DecodeKittyTextSizeMarkers].  Every iteration shortens [result], so
    [len(text)+1] iterations suffice. *)
Definition DecodeKittyTextSizeMarkers (text : bytes) : outcome bytes :=
  decodeLoop (S (length text)) text.

(** [ansiEscapeRegex], [\x1b\[[0-9;]*m]: the length of the match that
    starts at the head of [s], if there is one.  The parameter run is
    matched greedily; no shorter run can be followed by [m]. *)
Definition isParam (c : ascii) : bool :=
  let n := N_of_ascii c in ((48 <=? n)%N && (n <=? 57)%N) || byte_eqb c ";"%char.

Fixpoint sgrTail (s : bytes) (n : nat) : option nat :=
  match s with
  | [] => None
  | c :: s' =>
      if isParam c then sgrTail s' (S n)
      else if byte_eqb c "m"%char then Some (S n)
      else None
  end.

Definition sgrMatch (s : bytes) : option nat :=
  match s with
  | e :: b :: s' =>
      if byte_eqb e termenv.ESC && byte_eqb b "["%char then sgrTail s' 2
      else None
  | _ => None
  end.

(** [ReplaceAllString(s, "")] for that expression: matches are taken
    leftmost first and do not overlap.  [skip] counts the bytes of the
    current match still to be dropped. *)
Fixpoint stripFrom (skip : nat) (s : bytes) : bytes :=
  match s with
  | [] => []
  | c :: s' =>
      match skip with
      | S k => stripFrom k s'
      | O =>
          match sgrMatch s with
          | Some n => stripFrom (n - 1) s'
          | None => c :: stripFrom 0 s'
          end
      end
  end.

(** [StripANSI]. *)
Definition StripANSI (s : bytes) : bytes := stripFrom 0 s.

(** [KittyTextSizingCapability]. *)
Inductive KittyTextSizingCapability : Type :=
  | KittyTextSizingNone
  | KittyTextSizingWidth
  | KittyTextSizingFull.

(** What the terminal does during one probe: whether standard output is a
    terminal, whether raw mode could be set, and the outcome of the three
    [readCPR] calls (a row and a column, or a read error or timeout). *)
Record Terminal : Type := mkTerminal {
  IsTerminal : bool;
  makeRaw : option error;
  readCPR1 : (Z * Z) + error;
  readCPR2 : (Z * Z) + error;
  readCPR3 : (Z * Z) + error
}.

(** What a probe leaves behind: the bytes written to standard output and
    whether the deferred [restoreTerminal] ran. *)
Record ProbeTrace : Type := mkProbeTrace {
  stdout : bytes;
  restored : bool
}.

(** The comparison of the three columns at the end of
    [DetectKittyTextSizing]. *)
Definition classify (col1 col2 col3 : Z) : KittyTextSizingCapability :=
  if (col2 =? col1)%Z then KittyTextSizingNone
  else
    let widthSupported := (int_sub col2 col1 =? 2)%Z in
    let scaleSupported := (int_sub col3 col2 =? 2)%Z in
    if widthSupported && scaleSupported then KittyTextSizingFull
    else if widthSupported then KittyTextSizingWidth
    else KittyTextSizingNone.

(** [DetectKittyTextSizing]. *)
Definition DetectKittyTextSizing (t : Terminal)
    : KittyTextSizingCapability * option error * ProbeTrace :=
  if negb (IsTerminal t) then
    (KittyTextSizingNone, None, mkProbeTrace [] false)
  else
    match makeRaw t with
    | Some (Error msg) =>
        (KittyTextSizingNone,
         Some (Error (lit "failed to set raw mode: " ++ msg)),
         mkProbeTrace [] false)
    | None =>
        let out := "013"%char :: termenv.ESC :: lit "[6n" in
        match readCPR1 t with
        | inr err => (KittyTextSizingNone, Some err, mkProbeTrace out true)
        | inl (_, col1) =>
            let out :=
              out ++ (termenv.ESC :: lit "]66;w=2; ")
                  ++ ("007"%char :: termenv.ESC :: lit "[6n") in
            match readCPR2 t with
            | inr err => (KittyTextSizingNone, Some err, mkProbeTrace out true)
            | inl (_, col2) =>
                let out :=
                  out ++ (termenv.ESC :: lit "]66;s=2; ")
                      ++ ("007"%char :: termenv.ESC :: lit "[6n") in
                match readCPR3 t with
                | inr err =>
                    (KittyTextSizingNone, Some err, mkProbeTrace out true)
                | inl (_, col3) =>
                    let out := out ++ ("013"%char :: termenv.ESC :: lit "[K") in
                    (classify col1 col2 col3, None, mkProbeTrace out true)
                end
            end
        end
    end.

(** ** Collaborators *)

(** Library functions whose code is outside the package:
    [golang.org/x/text/cases] and [text/template]. *)
Class TextLibs : Type := {
  cases_Upper : bytes -> bytes;
  cases_Lower : bytes -> bytes;
  cases_Title : bytes -> bytes;
  template_Parse : bytes -> option error;
  template_Execute : bytes -> bytes -> bytes * option error
}.

(** ** baseelement.go *)

(** [BaseElement]. *)
Record BaseElement : Type := mkBaseElement {
  Token : bytes;
  ePrefix : bytes;
  eSuffix : bytes;
  Style : StylePrimitive
}.

(** [formatToken]. *)
Definition formatToken {TL : TextLibs} (format token : bytes)
    : bytes * option error :=
  match template_Parse format with
  | Some (Error msg) =>
      ([], Some (Error (lit "glamour: error parsing template: " ++ msg)))
  | None => template_Execute format token
  end.

(** [renderText]. *)
Definition renderText {W : Type} {WW : Writer W} {TL : TextLibs} (w : W)
    (p : termenv.Profile) (rules : StylePrimitive) (s : bytes) : W :=
  match s with
  | [] => w
  | _ :: _ =>
      let out := termenv.String s in
      let out := if isTrue (Upper rules)
                 then termenv.String (cases_Upper s) else out in
      let out := if isTrue (Lower rules)
                 then termenv.String (cases_Lower s) else out in
      let out := if isTrue (Title rules)
                 then termenv.String (cases_Title s) else out in
      let out := decorate p rules out in
      WriteString w (termenv.Styled out)
  end.

(** The characters that [escapeReplacer] un-escapes. *)
Definition escapable : bytes := lit "\`*_{}[]<>()#+-.!|".

Definition isEscapable (c : ascii) : bool := existsb (byte_eqb c) escapable.

(** [escapeReplacer.Replace]: every old string is a backslash followed by
    one escapable character, so at most one of them matches at a position;
    a match is replaced by its second byte and the scan resumes after it. *)
Fixpoint escapeReplace (s : bytes) : bytes :=
  match s with
  | [] => []
  | b :: s' =>
      if byte_eqb b "\"%char then
        match s' with
        | c :: rest =>
            if isEscapable c then c :: escapeReplace rest
            else b :: escapeReplace s'
        | [] => [b]
        end
      else b :: escapeReplace s'
  end.

(** [prefixStyle := st1; prefixStyle.Color = st1.PrefixColor]. *)
Definition withPrefixColor (st1 : StylePrimitive) : StylePrimitive :=
  mkStylePrimitive (BlockPrefix st1) (BlockSuffix st1) (Prefix st1)
    (PrefixColor st1) (Suffix st1) (PrefixColor st1) (BackgroundColor st1)
    (Underline st1) (Bold st1) (Upper st1) (Lower st1) (Title st1)
    (Italic st1) (CrossedOut st1) (Faint st1) (Conceal st1) (Overlined st1)
    (Inverse st1) (Blink st1) (Format st1) (KittyScale st1) (KittyWidth st1)
    (KittyNumerator st1) (KittyDenominator st1) (KittyVAlign st1)
    (KittyHAlign st1).

(** [doRender].  The two deferred calls run on every return, the one
    registered last first. *)
Definition doRender {W : Type} {WW : Writer W} {TL : TextLibs} (e : BaseElement)
    (w : W) (p : termenv.Profile) (st1 st2 : StylePrimitive)
    : W * option error :=
  let prefixStyle := withPrefixColor st1 in
  let w := renderText w p prefixStyle (ePrefix e) in
  let blockPrefixStyle := withPrefixColor st1 in
  let w := renderText w p blockPrefixStyle (BlockPrefix st2) in
  let w := renderText w p st2 (Prefix st2) in
  let '(w, err) :=
    match Format st2 with
    | [] => (renderText w p st2 (escapeReplace (Token e)), None)
    | _ :: _ =>
        match formatToken (Format st2) (Token e) with
        | (_, Some err) => (w, Some err)
        | (s, None) => (renderText w p st2 (escapeReplace s), None)
        end
    end in
  let w := renderText w p st2 (Suffix st2) in
  let w := renderText w p blockPrefixStyle (BlockSuffix st2) in
  (w, err).

(** ** The block stack and the render context *)

(** [BlockElement]: [Block] is a [*bytes.Buffer], here the address of the
    buffer in the store of buffers. *)
Record BlockElement : Type := mkBlockElement {
  Block : nat;
  BlockStyle : StyleBlock
}.

(** The store of [bytes.Buffer] objects that block elements point to. *)
Abbreviation Buffers := (list bytes) (only parsing).

(** [buf.String()] and [buf.Bytes()]. *)
Definition Buffer_String (h : Buffers) (a : nat) : bytes := default [] (h !! a).

(** [buf.Reset()]. *)
Definition Buffer_Reset (h : Buffers) (a : nat) : Buffers := <[a := []]> h.

(** [&bytes.Buffer{}]: a fresh, empty buffer. *)
Definition Buffer_new (h : Buffers) : nat * Buffers := (length h, h ++ [[]]).

(** Writing through a buffer pointer appends to the pointed-to buffer. *)
#[export] Instance BufferRef_Writer : Writer (Buffers * nat) := {
  Write r p :=
    ((<[snd r := Buffer_String (fst r) (snd r) ++ p]> (fst r), snd r), None)
}.

(** Modelled from the spec: [blockstack.go] is not among the sources.  The
    block stack is the ordered sequence of active rendering scopes, the
    top last. *)
Abbreviation BlockStack := (list BlockElement) (only parsing).

(** Modelled from the spec: [push(entry)]. *)
Definition Push (bs : BlockStack) (e : BlockElement) : BlockStack := bs ++ [e].

(** Modelled from the spec: [pop()] removes the top. *)
Definition Pop (bs : BlockStack) : BlockStack := take (length bs - 1) bs.

(** Modelled from the spec: [current()] is the top.  The spec defines it
    on a stack that holds the root sentinel; [None] is an empty stack. *)
Definition Current (bs : BlockStack) : option BlockElement :=
  bs !! (length bs - 1).

(** Modelled from the spec: [parent()] is the second from the top, which
    exists whenever an entry lies above the root sentinel. *)
Definition Parent (bs : BlockStack) : option BlockElement :=
  if length bs <? 2 then None else bs !! (length bs - 2).

(** The part of [StyleConfig] that headings and images read. *)
Record StyleConfig : Type := mkStyleConfig {
  Heading : StyleBlock;
  H1 : StyleBlock;
  H2 : StyleBlock;
  H3 : StyleBlock;
  H4 : StyleBlock;
  H5 : StyleBlock;
  H6 : StyleBlock;
  Image : StylePrimitive;
  ImageText : StylePrimitive
}.

(** [KittyImageConfig]; a [nil] [ImageCache] is [None]. *)
Record KittyImageConfig : Type := mkKittyImageConfig {
  Enabled : bool;
  ImageCache : option (bytes -> Z * Z * Z * bool)
}.

(** The read-only part of [RenderContext]: [ctx.options] and
    [ctx.kittyImageConfig] (a pointer, [None] when [nil]). *)
Record Options : Type := mkOptions {
  Styles : StyleConfig;
  ColorProfile : termenv.Profile;
  kittyImageConfig : option KittyImageConfig
}.

(** The mutable state a render call works on: the package-level flag
    [kittyTextSizingEnabled], the block stack behind [ctx.blockStack] and
    the buffers its entries point to. *)
Record RenderState : Type := mkRenderState {
  kittyTextSizingEnabled : bool;
  blockStack : BlockStack;
  buffers : Buffers
}.

(** [IsKittyTextSizingEnabled]. *)
Definition IsKittyTextSizingEnabled (st : RenderState) : bool :=
  kittyTextSizingEnabled st.

(** [SetKittyTextSizingEnabled]. *)
Definition SetKittyTextSizingEnabled (enabled : bool) (st : RenderState)
    : RenderState :=
  mkRenderState enabled (blockStack st) (buffers st).

(** Functions of the package whose files are not among the sources, and
    the word-wrap writer of [muesli/reflow]: [BlockStack.With],
    [BlockStack.Width], [resolveRelativeURL], the margin writer made by
    [NewMarginWriter] (which writes to the writer it wraps), and
    [wordwrap.Writer]'s [Write], [Close] and [Bytes]. *)
Class Collaborators : Type := {
  BlockStack_With : BlockStack -> StylePrimitive -> StylePrimitive;
  BlockStack_Width : BlockStack -> Options -> Z;
  resolveRelativeURL : bytes -> bytes -> bytes;
  MarginWriter_Write :
    forall W : Type, Writer W ->
      Options -> BlockStack -> StyleBlock -> W -> bytes -> W * option error;
  flow_Write : Z -> bytes -> option error;
  flow_Close : Z -> bytes -> option error;
  flow_Bytes : Z -> bytes -> bytes
}.

(** [BaseElement.Render]; [None] is a stack without a current entry. *)
Definition BaseElement_Render {W : Type} {WW : Writer W} {TL : TextLibs}
    {CO : Collaborators} (e : BaseElement) (w : W) (o : Options)
    (st : RenderState) : option (W * option error) :=
  cur ← Current (blockStack st);
  let st1 := primitive (BlockStyle cur) in
  let st2 := BlockStack_With (blockStack st) (Style e) in
  Some (doRender e w (ColorProfile o) st1 st2).

(** ** heading.go *)

(** [HeadingElement]. *)
Record HeadingElement : Type := mkHeadingElement {
  Level : Z;
  First : bool
}.

(** The [switch e.Level] of [HeadingElement.Render]. *)
Definition headingRules (e : HeadingElement) (s : StyleConfig) : StyleBlock :=
  let rules := Heading s in
  if (Level e =? 1)%Z then cascadeStyles [rules; H1 s]
  else if (Level e =? 2)%Z then cascadeStyles [rules; H2 s]
  else if (Level e =? 3)%Z then cascadeStyles [rules; H3 s]
  else if (Level e =? 4)%Z then cascadeStyles [rules; H4 s]
  else if (Level e =? 5)%Z then cascadeStyles [rules; H5 s]
  else if (Level e =? 6)%Z then cascadeStyles [rules; H6 s]
  else rules.

(** [HeadingElement.Render]. *)
Definition HeadingElement_Render {W : Type} {WW : Writer W} {TL : TextLibs}
    (e : HeadingElement) (w : W) (o : Options) (st : RenderState)
    : option (W * RenderState * option error) :=
  let bs := blockStack st in
  let rules := headingRules e (Styles o) in
  cur ← Current bs;
  let w :=
    if negb (First e)
    then renderText w (ColorProfile o) (primitive (BlockStyle cur)) ["010"%char]
    else w in
  let '(addr, h) := Buffer_new (buffers st) in
  let be := mkBlockElement addr (cascadeStyle (BlockStyle cur) rules false) in
  let bs := Push bs be in
  par ← Parent bs;
  let w := renderText w (ColorProfile o) (primitive (BlockStyle par))
             (BlockPrefix (primitive rules)) in
  cur ← Current bs;
  let '(h, _) := renderText (h, Block cur) (ColorProfile o)
                   (primitive (BlockStyle cur)) (Prefix (primitive rules)) in
  Some (w, mkRenderState (kittyTextSizingEnabled st) bs h, None).

(** [for i := 0; i < extraRows; i++ { io.WriteString(w, "\n") }]. *)
Fixpoint writeNewlines {W : Type} {WW : Writer W} (n : nat) (w : W) : W :=
  match n with
  | O => w
  | S n' => writeNewlines n' (WriteString w ["010"%char])
  end.

(** [bs.Current().Block.Reset(); bs.Pop()], the common end of both
    branches of [HeadingElement.Finish]. *)
Definition resetAndPop (st : RenderState) : option RenderState :=
  cur ← Current (blockStack st);
  Some (mkRenderState (kittyTextSizingEnabled st) (Pop (blockStack st))
          (Buffer_Reset (buffers st) (Block cur))).

(** The Kitty branch of [HeadingElement.Finish].  The diagnostic lines the
    source appends to a log file under [/tmp] touch neither the writer nor
    the render state and are left out. *)
Definition scaledFinish {W : Type} {WW : Writer W} {TL : TextLibs} (w : W)
    (o : Options) (st : RenderState)
    : option (W * RenderState * option error) :=
  let bs := blockStack st in
  cur ← Current bs;
  let rules := BlockStyle cur in
  let blockContent := Buffer_String (buffers st) (Block cur) in
  let plainText := StripANSI blockContent in
  let fullText := plainText ++ Suffix (primitive rules) in
  let osc66Output := buildOSC66Output (ColorProfile o) (primitive rules) fullText in
  let marker := kittyMarker osc66Output in
  let w := WriteString w marker in
  par ← Parent bs;
  let w := renderText w (ColorProfile o) (primitive (BlockStyle par))
             (BlockSuffix (primitive rules)) in
  let extraRows := GetKittyScaleRows (primitive rules) in
  let w := writeNewlines (Z.to_nat extraRows) w in
  st' ← resetAndPop st;
  Some (w, st', None).

(** The standard branch of [HeadingElement.Finish]. *)
Definition standardFinish {W : Type} {WW : Writer W} {TL : TextLibs}
    {CO : Collaborators} (w : W) (o : Options) (st : RenderState)
    : option (W * RenderState * option error) :=
  let bs := blockStack st in
  cur ← Current bs;
  let rules := BlockStyle cur in
  let width := int_of_uint (BlockStack_Width bs o) in
  let content := Buffer_String (buffers st) (Block cur) in
  match flow_Write width content with
  | Some (Error msg) =>
      Some (w, st, Some (Error (lit "glamour: error writing bytes: " ++ msg)))
  | None =>
      match flow_Close width content with
      | Some (Error msg) =>
          Some (w, st, Some (Error (lit "glamour: error closing flow: " ++ msg)))
      | None =>
          match MarginWriter_Write W _ o bs rules w (flow_Bytes width content) with
          | (w, Some err) => Some (w, st, Some err)
          | (w, None) =>
              let w := renderText w (ColorProfile o) (primitive (BlockStyle cur))
                         (Suffix (primitive rules)) in
              par ← Parent bs;
              let w := renderText w (ColorProfile o) (primitive (BlockStyle par))
                         (BlockSuffix (primitive rules)) in
              st' ← resetAndPop st;
              Some (w, st', None)
          end
      end
  end.

(** [HeadingElement.Finish]. *)
Definition HeadingElement_Finish {W : Type} {WW : Writer W} {TL : TextLibs}
    {CO : Collaborators} (e : HeadingElement) (w : W) (o : Options)
    (st : RenderState) : option (W * RenderState * option error) :=
  cur ← Current (blockStack st);
  let rules := BlockStyle cur in
  if IsKittyTextSizingEnabled st && hasKittyTextSizing (primitive rules)
  then scaledFinish w o st
  else standardFinish w o st.

(** Where the standard branch of [HeadingElement.Finish] returns early:
    the first of [flow.Write], [flow.Close] and [mw.Write] to fail, with
    the writer as it is then and the error returned, the first two wrapped
    with [fmt.Errorf]; [None] when all three succeed. *)
Definition standardFailure {W : Type} {WW : Writer W}
    {CO : Collaborators} (w : W) (o : Options) (st : RenderState)
    (cur : BlockElement) : option (W * error) :=
  let bs := blockStack st in
  let rules := BlockStyle cur in
  let width := int_of_uint (BlockStack_Width bs o) in
  let content := Buffer_String (buffers st) (Block cur) in
  match flow_Write width content with
  | Some (Error msg) =>
      Some (w, Error (lit "glamour: error writing bytes: " ++ msg))
  | None =>
      match flow_Close width content with
      | Some (Error msg) =>
          Some (w, Error (lit "glamour: error closing flow: " ++ msg))
      | None =>
          match MarginWriter_Write W _ o bs rules w (flow_Bytes width content) with
          | (w, Some err) => Some (w, err)
          | (_, None) => None
          end
      end
  end.

(** The early returns of [HeadingElement.Finish] on a stack whose current
    entry is [cur]: the scaled branch has none, the standard branch has
    those of [standardFailure]. *)
Definition finishFailure {W : Type} {WW : Writer W} {CO : Collaborators}
    (w : W) (o : Options) (st : RenderState) (cur : BlockElement)
    : option (W * error) :=
  if IsKittyTextSizingEnabled st
     && hasKittyTextSizing (primitive (BlockStyle cur))
  then None
  else standardFailure w o st cur.

(** ** The image renderers *)

(** [ImageElement]; the [Child] renderer is not used by [Render]. *)
Record ImageElement : Type := mkImageElement {
  Text : bytes;
  BaseURL : bytes;
  URL : bytes;
  TextOnly : bool
}.

(** [strings.TrimSuffix(s, suffix)]. *)
Definition TrimSuffix (s suffix : bytes) : bytes :=
  if HasPrefix (rev s) (rev suffix) then take (length s - length suffix) s
  else s.

(** The literal [" →"]: a space and the three UTF-8 bytes of the arrow. *)
Definition arrowSuffix : bytes := [" "%char; "226"%char; "134"%char; "146"%char].

(** [style.Format = v]. *)
Definition withFormat (s : StylePrimitive) (v : bytes) : StylePrimitive :=
  mkStylePrimitive (BlockPrefix s) (BlockSuffix s) (Prefix s) (PrefixColor s)
    (Suffix s) (Color s) (BackgroundColor s) (Underline s) (Bold s) (Upper s)
    (Lower s) (Title s) (Italic s) (CrossedOut s) (Faint s) (Conceal s)
    (Overlined s) (Inverse s) (Blink s) v (KittyScale s) (KittyWidth s)
    (KittyNumerator s) (KittyDenominator s) (KittyVAlign s) (KittyHAlign s).

(** [fmt.Sprintf("[KITTY_IMAGE:id=%d,cols=%d,rows=%d]", imageID, cols, rows)]. *)
Definition kittyImageMarker (imageID cols rows : Z) : bytes :=
  lit "[KITTY_IMAGE:id=" ++ fmt_d imageID ++ lit ",cols=" ++ fmt_d cols
    ++ lit ",rows=" ++ fmt_d rows ++ lit "]".

(** The lookup at the head of [ImageElement.Render]: the marker to write
    when kitty images are configured, enabled and the cache knows the URL. *)
Definition kittyLookup (cfg : option KittyImageConfig) (url : bytes)
    : option bytes :=
  match cfg with
  | Some c =>
      if Enabled c then
        match ImageCache c with
        | Some cache =>
            let '(imageID, cols, rows, exists_) := cache url in
            if exists_ then Some (kittyImageMarker imageID cols rows) else None
        | None => None
        end
      else None
  | None => None
  end.

(** The standard rendering of [ImageElement.Render]: the alternative text,
    then the resolved URL with a one-space prefix. *)
Definition standardImage {W : Type} {WW : Writer W} {TL : TextLibs} {CO : Collaborators}
    (e : ImageElement) (w : W) (o : Options) (st : RenderState)
    : option (W * option error) :=
  let style := ImageText (Styles o) in
  let style :=
    if TextOnly e then withFormat style (TrimSuffix (Format style) arrowSuffix)
    else style in
  r ← match Text e with
      | [] => Some (w, None)
      | _ :: _ => BaseElement_Render (mkBaseElement (Text e) [] [] style) w o st
      end;
  match r with
  | (w, Some err) => Some (w, Some err)
  | (w, None) =>
      if TextOnly e then Some (w, None)
      else
        match URL e with
        | [] => Some (w, None)
        | _ :: _ =>
            BaseElement_Render
              (mkBaseElement (resolveRelativeURL (BaseURL e) (URL e))
                 (lit " ") [] (Image (Styles o)))
              w o st
        end
  end.

(** [ImageElement.Render]. *)
Definition ImageElement_Render {W : Type} {WW : Writer W} {TL : TextLibs}
    {CO : Collaborators} (e : ImageElement) (w : W) (o : Options)
    (st : RenderState) : option (W * option error) :=
  match kittyLookup (kittyImageConfig o) (URL e) with
  | Some marker => Some (Write w marker)
  | None => standardImage e w o st
  end.

(** [ast.WalkStatus]. *)
Inductive WalkStatus : Type :=
  | WalkStop
  | WalkSkipChildren
  | WalkContinue.

(** [KittyImageRenderer.renderImage] on an image node with destination
    [destination]; the renderer holds its [KittyImageConfig] by value. *)
Definition renderImage {W : Type} {WW : Writer W} (config : KittyImageConfig)
    (w : W) (destination : bytes) (entering : bool) : W * WalkStatus :=
  if negb entering then (w, WalkContinue)
  else
    match Enabled config, ImageCache config with
    | true, Some cache =>
        let url := destination in
        let '(imageID, cols, rows, exists_) := cache url in
        if negb exists_ then
          (WriteString w (lit "[IMAGE NOT IN CACHE: " ++ url ++ lit "]"),
           WalkContinue)
        else
          (WriteString w (kittyImageMarker imageID cols rows), WalkSkipChildren)
    | _, _ => (w, WalkContinue)
    end.

(** ** Vocabulary of the properties *)

(** An optional attribute [f] of the merged style follows the
    parent-unless-overridden rule. *)
Definition inherits {A : Type} (f : StylePrimitive -> option A)
    (parent child merged : StylePrimitive) : Prop :=
  f merged = match f child with
             | Some v => Some v
             | None => f parent
             end.

(** The classification of the three columns in the spec's words, on
    mathematical integers: equal first columns give None; a first
    difference of two gives Full when the second difference is two as
    well and WidthOnly otherwise. *)
Definition classification (c1 c2 c3 : Z) : KittyTextSizingCapability :=
  if (c2 =? c1)%Z then KittyTextSizingNone
  else if (c2 - c1 =? 2)%Z then
    if (c3 - c2 =? 2)%Z then KittyTextSizingFull else KittyTextSizingWidth
  else KittyTextSizingNone.

(** The case transform that reaches the output when the tests are read as
    the source runs them: each later test overwrites the earlier result. *)
Definition lastCase {TL : TextLibs} (rules : StylePrimitive) (s : bytes) : bytes :=
  if isTrue (Title rules) then cases_Title s
  else if isTrue (Lower rules) then cases_Lower s
  else if isTrue (Upper rules) then cases_Upper s
  else s.

(** A column as [readCPR] can report it: the digits matched by the
    response pattern, scanned into an [int]. *)
Definition column (c : Z) : Prop := (0 <= c <= int_max)%Z.

(** ASCII case mappings, used to run the renderer on concrete tokens:
    [cases.Upper], [cases.Lower] and [cases.Title] agree with them on
    tokens made of ASCII letters.  The template functions are those of a
    template that parses and renders the token unchanged. *)
Definition upperByte (c : ascii) : ascii :=
  let n := N_of_ascii c in
  if (97 <=? n)%N && (n <=? 122)%N then ascii_of_N (n - 32) else c.

Definition lowerByte (c : ascii) : ascii :=
  let n := N_of_ascii c in
  if (65 <=? n)%N && (n <=? 90)%N then ascii_of_N (n + 32) else c.

Definition titleWord (s : bytes) : bytes :=
  match s with
  | [] => []
  | c :: s' => upperByte c :: map lowerByte s'
  end.

Definition AsciiText : TextLibs := {|
  cases_Upper := map upperByte;
  cases_Lower := map lowerByte;
  cases_Title := titleWord;
  template_Parse := fun _ => None;
  template_Execute := fun _ token => (token, None)
|}.

(** A colour profile for running examples: colour names are palette
    numbers, as in the 256-colour profile. *)
Definition PaletteProfile : termenv.Profile :=
  termenv.mkProfile
    (fun name bg => Some (lit (if bg then "48;5;" else "38;5;") ++ name)).

(** Collaborators for running examples: [With] cascades the element style
    onto the current entry's style, the width is 80 columns, URLs are
    already absolute, and neither word-wrap nor the margin writer changes
    or rejects the text it is given. *)
Definition PassThrough : Collaborators := {|
  BlockStack_With := fun bs child =>
    match Current bs with
    | Some cur => cascadeStylePrimitive (primitive (BlockStyle cur)) child false
    | None => child
    end;
  BlockStack_Width := fun _ _ => 80%Z;
  resolveRelativeURL := fun _ url => url;
  MarginWriter_Write := fun W _ _ _ _ w b => Write w b;
  flow_Write := fun _ _ => None;
  flow_Close := fun _ _ => None;
  flow_Bytes := fun _ content => content
|}.

(** The branch test of heading finalisation in the spec's words: the
    global flag is on and the style carries at least one of the six
    scaling parameters. *)
Definition carriesScaling (rules : StylePrimitive) : bool :=
  isSet (KittyScale rules)
  || isSet (KittyWidth rules)
  || isSet (KittyNumerator rules)
  || isSet (KittyDenominator rules)
  || isSet (KittyVAlign rules)
  || isSet (KittyHAlign rules).

(** A style that sets nothing but the given scaling parameters. *)
Definition scalingStyle (scale width num den valign halign : option Z)
    : StylePrimitive :=
  mkStylePrimitive [] [] [] None [] None None None None None None None None
    None None None None None None [] scale width num den valign halign.

(** Options with empty styles and no image configuration. *)
Definition plainOptions : Options :=
  mkOptions
    (mkStyleConfig zeroStyleBlock zeroStyleBlock zeroStyleBlock zeroStyleBlock
       zeroStyleBlock zeroStyleBlock zeroStyleBlock zeroStylePrimitive
       zeroStylePrimitive)
    PaletteProfile None.

(** A render state in the middle of a heading: the root entry, and above
    it a heading entry with style [rules] whose buffer holds [content]. *)
Definition inHeading (enabled : bool) (rules : StylePrimitive)
    (content : bytes) : RenderState :=
  mkRenderState enabled
    [mkBlockElement 0 zeroStyleBlock;
     mkBlockElement 1 (mkStyleBlock rules None None None)]
    [[]; content].

(** [ctx.kittyImageConfig = nil]: the rendering without graphics. *)
Definition withoutGraphics (o : Options) : Options :=
  mkOptions (Styles o) (ColorProfile o) None.

(** The value an optional attribute ends up with when a list of styles is
    cascaded in order: the one set last. *)
Definition lastSet {A : Type} (f : StylePrimitive -> option A)
    (l : list StylePrimitive) : option A :=
  last (omap f l).

(** The framing string that results under [toBlock = true]: the child's
    unless it is empty, then the parent's. *)
Definition orElse (child parent : bytes) : bytes :=
  match child with
  | [] => parent
  | _ :: _ => child
  end.

(** The bytes of an encoded text that the base64 decoder looks at: all
    but carriage returns and line feeds. *)
Definition significant (s : bytes) : bytes :=
  List.filter (fun c => negb (Base64.isNewline c)) s.

(** [renderKittyScaledText].  As in heading finalisation, the diagnostic
    lines appended to a log file under [/tmp] are left out. *)
Definition renderKittyScaledText {W : Type} {WW : Writer W} (w : W)
    (p : termenv.Profile) (rules : StylePrimitive) (s : bytes) : W :=
  match s with
  | [] => w
  | _ :: _ =>
      let meta := buildKittyMetadata rules in
      match meta with
      | [] => WriteString w (applyANSIStyles p rules s)
      | _ :: _ =>
          let '(prefix, suffix) := buildANSIWrapper p rules in
          let w := WriteString w prefix in
          let w := fst (Write w ((termenv.ESC :: lit "]66;") ++ meta ++ lit ";"
                                   ++ s ++ ["007"%char])) in
          WriteString w suffix
      end
  end.

(** [DetectAndEnableKittyTextSizing]: the capability found, and the render
    state with the package-level flag set when the support is full. *)
Definition DetectAndEnableKittyTextSizing (t : Terminal) (st : RenderState)
    : KittyTextSizingCapability * RenderState :=
  match DetectKittyTextSizing t with
  | (_, Some _, _) => (KittyTextSizingNone, st)
  | (cap, None, _) =>
      match cap with
      | KittyTextSizingFull => (cap, SetKittyTextSizingEnabled true st)
      | _ => (cap, st)
      end
  end.

(** A text without the escape byte. *)
Definition noEscape (s : bytes) : bool :=
  forallb (fun c => negb (byte_eqb c termenv.ESC)) s.

(** An SGR parameter string: digits and semicolons, as the colour
    sequences of [termenv] are ([38;5;212], [48;2;0;0;42], [31]). *)
Definition isParams (seq : bytes) : bool := forallb isParam seq.

(** The sequence of the foreground colour of [rules] under [p], when the
    colour is set and [p.Color] does not return [nil]. *)
Definition foregroundSeq (p : termenv.Profile) (rules : StylePrimitive)
    : option bytes :=
  c ← Color rules; termenv.Sequence p c false.

Definition backgroundSeq (p : termenv.Profile) (rules : StylePrimitive)
    : option bytes :=
  c ← BackgroundColor rules; termenv.Sequence p c true.

(** A test on a colour sequence that may be absent. *)
Definition optAll (ok : bytes -> bool) (seq : option bytes) : bool :=
  match seq with
  | Some s => ok s
  | None => true
  end.

(** A colour sequence made of SGR parameters. *)
Definition paramsOrNone (seq : option bytes) : bool := optAll isParams seq.

(** The reset code [0]. *)
Definition isReset (seq : bytes) : bool :=
  match seq with
  | [c] => byte_eqb c "0"%char
  | _ => false
  end.

(** An SGR parameter string other than the reset code. *)
Definition isColour (seq : bytes) : bool := isParams seq && negb (isReset seq).

(** A colour sequence made of SGR parameters that is not the reset
    code. *)
Definition colourOrNone (seq : option bytes) : bool := optAll isColour seq.

(** [cap == KittyTextSizingFull]. *)
Definition isFull (cap : KittyTextSizingCapability) : bool :=
  match cap with
  | KittyTextSizingFull => true
  | _ => false
  end.

(** Markdown escaping, the inverse direction of [escapeReplacer]: every
    escapable character gets a backslash in front. *)
Definition escapeMarkdown (s : bytes) : bytes :=
  flat_map (fun c => if isEscapable c then ["\"%char; c] else [c]) s.

(** A base element with the same prefix, suffix and style and an empty
    token. *)
Definition withoutToken (e : BaseElement) : BaseElement :=
  mkBaseElement [] (ePrefix e) (eSuffix e) (Style e).

(** Template functions of a template that does not parse. *)
Definition BrokenTemplates : TextLibs := {|
  cases_Upper := map upperByte;
  cases_Lower := map lowerByte;
  cases_Title := titleWord;
  template_Parse := fun _ => Some (Error (lit "unexpected EOF"));
  template_Execute := fun _ token => (token, None)
|}.


(** ** kitty_image.go: the placeholder grid *)

(** [utf8.EncodeRune], which Go applies in the conversion [string(r)] of a
    rune: one to four bytes, and U+FFFD for a value that is no scalar
    value. *)
Definition EncodeRune (r : Z) : bytes :=
  let b := Base64.byte_of in
  let cont (v : Z) := b (Z.lor 128 (Z.land v 63)) in
  let replacement := [b 239%Z; b 191%Z; b 189%Z] in
  if (r <? 0)%Z then replacement
  else if (r <? 128)%Z then [b r]
  else if (r <? 2048)%Z then [b (Z.lor 192 (Z.shiftr r 6)); cont r]
  else if (55296 <=? r)%Z && (r <=? 57343)%Z then replacement
  else if (r <? 65536)%Z then
    [b (Z.lor 224 (Z.shiftr r 12)); cont (Z.shiftr r 6); cont r]
  else if (r <=? 1114111)%Z then
    [b (Z.lor 240 (Z.shiftr r 18)); cont (Z.shiftr r 12);
     cont (Z.shiftr r 6); cont r]
  else replacement.

(** [kittyDiacritics]. *)
Definition kittyDiacritics : list Z :=
  [0x0305; 0x030D; 0x030E; 0x0310; 0x0312; 0x033D; 0x033E; 0x033F;
   0x0346; 0x034A; 0x034B; 0x034C; 0x0350; 0x0351; 0x0352; 0x0357;
   0x035B; 0x0363; 0x0364; 0x0365; 0x0366; 0x0367; 0x0368; 0x0369;
   0x036A; 0x036B; 0x036C; 0x036D; 0x036E; 0x036F; 0x0483; 0x0484]%Z.

(** [kittyRowColDiacritic]. *)
Definition kittyRowColDiacritic (idx : Z) : bytes :=
  if (idx <? 0)%Z || (Z.of_nat (length kittyDiacritics) <=? idx)%Z then []
  else EncodeRune (nth (Z.to_nat idx) kittyDiacritics 0%Z).

(** The string literal of [placeholderRune]: the escape takes eight
    hexadecimal digits, so the literal is the rune U+10EEE followed by the
    letter E. *)
Definition placeholderRune : bytes := EncodeRune 0x10EEE%Z ++ lit "E".

(** [fmt.Sprintf] of a colour sequence, [ESC [ code ;2; r ; g ; b m], with
    the three low bytes of [id]. *)
Definition idColour (code : bytes) (id : Z) : bytes :=
  let red := Z.land (Z.shiftr id 16) 255%Z in
  let green := Z.land (Z.shiftr id 8) 255%Z in
  let blue := Z.land id 255%Z in
  termenv.ESC :: lit "[" ++ code ++ lit ";2;" ++ fmt_d red ++ lit ";"
    ++ fmt_d green ++ lit ";" ++ fmt_d blue ++ lit "m".

(** [reset]. *)
Definition gridReset : bytes := termenv.ESC :: lit "[0m".

(** The values [0 .. n-1] of a loop [for i := 0; i < n; i++]. *)
Definition upto (n : Z) : list Z := map Z.of_nat (seq 0 (Z.to_nat n)).

(** What the body of the inner loop of [buildKittyPlaceholderGrid] writes. *)
Definition gridCell (fg ul : bytes) (row col : Z) : bytes :=
  fg ++ ul ++ placeholderRune ++ kittyRowColDiacritic row
    ++ kittyRowColDiacritic col.

(** [buildKittyPlaceholderGrid]. *)
Definition buildKittyPlaceholderGrid (imageID cols rows : Z) : bytes :=
  let fg := idColour (lit "38") imageID in
  let placementID := imageID in
  let ul := idColour (lit "58") placementID in
  flat_map
    (fun row => flat_map (fun col => gridCell fg ul row col) (upto cols)
                  ++ ["010"%char])
    (upto rows)
  ++ gridReset.

(** An index without a diacritic. *)
Definition outside (idx : Z) : bool := (idx <? 0)%Z || (32 <=? idx)%Z.

(** The number of line feeds in a text. *)
Definition lineFeeds (s : bytes) : nat :=
  count_occ Ascii.ascii_dec s "010"%char.

(** ** kitty_text_sizing_unix.go *)

Module Unix.

(** The flag bits and control-character indexes of [golang.org/x/sys/unix]
    on Linux. *)
Definition IGNBRK : Z := 0x1.
Definition BRKINT : Z := 0x2.
Definition PARMRK : Z := 0x8.
Definition ISTRIP : Z := 0x20.
Definition INLCR : Z := 0x40.
Definition IGNCR : Z := 0x80.
Definition ICRNL : Z := 0x100.
Definition IXON : Z := 0x400.
Definition OPOST : Z := 0x1.
Definition ISIG : Z := 0x1.
Definition ICANON : Z := 0x2.
Definition ECHO : Z := 0x8.
Definition ECHONL : Z := 0x40.
Definition IEXTEN : Z := 0x8000.
Definition CSIZE : Z := 0x30.
Definition CS8 : Z := 0x30.
Definition PARENB : Z := 0x100.
Definition VTIME : nat := 5.
Definition VMIN : nat := 6.

(** [unix.Termios]; [Cc] is an array of 19 bytes. *)
Record Termios : Type := mkTermios {
  Iflag : Z;
  Oflag : Z;
  Cflag : Z;
  Lflag : Z;
  Line : Z;
  Cc : list Z;
  Ispeed : Z;
  Ospeed : Z
}.

(** [terminalState]. *)
Record terminalState : Type := mkTerminalState {
  termios : Termios
}.

(** The terminal behind a file descriptor: its settings, and the results
    of the ioctl calls still to come, an error or success; a call beyond
    the end of the list succeeds. *)
Record Tty : Type := mkTty {
  settings : Termios;
  faults : list (option error)
}.

(** [unix.IoctlGetTermios(fd, unix.TCGETS)]. *)
Definition IoctlGetTermios (tty : Tty) : Tty * (Termios + error) :=
  match faults tty with
  | Some err :: rest => (mkTty (settings tty) rest, inr err)
  | None :: rest => (mkTty (settings tty) rest, inl (settings tty))
  | [] => (tty, inl (settings tty))
  end.

(** [unix.IoctlSetTermios(fd, unix.TCSETS, value)]. *)
Definition IoctlSetTermios (tty : Tty) (value : Termios) : Tty * option error :=
  match faults tty with
  | Some err :: rest => (mkTty (settings tty) rest, Some err)
  | None :: rest => (mkTty value rest, None)
  | [] => (mkTty value [], None)
  end.

(** The masks cleared by [makeRaw]. *)
Definition inputMask : Z :=
  Z.lor IGNBRK (Z.lor BRKINT (Z.lor PARMRK (Z.lor ISTRIP
    (Z.lor INLCR (Z.lor IGNCR (Z.lor ICRNL IXON)))))).
Definition localMask : Z :=
  Z.lor ECHO (Z.lor ECHONL (Z.lor ICANON (Z.lor ISIG IEXTEN))).
Definition controlMask : Z := Z.lor CSIZE PARENB.

(** The assignments of [makeRaw] to the settings it has read. *)
Definition rawTermios (t : Termios) : Termios :=
  mkTermios
    (Z.ldiff (Iflag t) inputMask)
    (Z.ldiff (Oflag t) OPOST)
    (Z.lor (Z.ldiff (Cflag t) controlMask) CS8)
    (Z.ldiff (Lflag t) localMask)
    (Line t)
    (<[VTIME := 0%Z]> (<[VMIN := 1%Z]> (Cc t)))
    (Ispeed t)
    (Ospeed t).

(** [makeRaw]: the terminal afterwards, the saved state ([None] is [nil])
    and the error. *)
Definition makeRaw (tty : Tty) : Tty * option terminalState * option error :=
  match IoctlGetTermios tty with
  | (tty, inr err) => (tty, None, Some err)
  | (tty, inl t) =>
      let oldState := mkTerminalState t in
      match IoctlSetTermios tty (rawTermios t) with
      | (tty, Some err) => (tty, None, Some err)
      | (tty, None) => (tty, Some oldState, None)
      end
  end.

(** [restoreTerminal]. *)
Definition restoreTerminal (tty : Tty) (state : option terminalState)
    : Tty * option error :=
  match state with
  | None => (tty, None)
  | Some s => IoctlSetTermios tty (termios s)
  end.

End Unix.

(** ** The Windows variant of [makeRaw] and [restoreTerminal] *)

Module Windows.

(** The console mode bits of [golang.org/x/sys/windows]. *)
Definition ENABLE_PROCESSED_INPUT : Z := 0x1.
Definition ENABLE_LINE_INPUT : Z := 0x2.
Definition ENABLE_ECHO_INPUT : Z := 0x4.
Definition ENABLE_VIRTUAL_TERMINAL_INPUT : Z := 0x200.

(** [terminalState]. *)
Record terminalState : Type := mkTerminalState {
  mode : Z
}.

(** The console behind a handle: its mode, and the results of the calls
    still to come, as for [Unix.Tty]. *)
Record Console : Type := mkConsole {
  consoleMode : Z;
  faults : list (option error)
}.

(** [windows.GetConsoleMode(handle, &mode)]. *)
Definition GetConsoleMode (con : Console) : Console * (Z + error) :=
  match faults con with
  | Some err :: rest => (mkConsole (consoleMode con) rest, inr err)
  | None :: rest => (mkConsole (consoleMode con) rest, inl (consoleMode con))
  | [] => (con, inl (consoleMode con))
  end.

(** [windows.SetConsoleMode(handle, mode)]. *)
Definition SetConsoleMode (con : Console) (value : Z) : Console * option error :=
  match faults con with
  | Some err :: rest => (mkConsole (consoleMode con) rest, Some err)
  | None :: rest => (mkConsole value rest, None)
  | [] => (mkConsole value [], None)
  end.

(** The mask cleared by [makeRaw]. *)
Definition inputMask : Z :=
  Z.lor ENABLE_ECHO_INPUT (Z.lor ENABLE_LINE_INPUT ENABLE_PROCESSED_INPUT).

(** [rawMode]. *)
Definition rawMode (mode : Z) : Z :=
  let rawMode := Z.ldiff mode inputMask in
  Z.lor rawMode ENABLE_VIRTUAL_TERMINAL_INPUT.

(** [makeRaw]. *)
Definition makeRaw (con : Console)
    : Console * option terminalState * option error :=
  match GetConsoleMode con with
  | (con, inr err) => (con, None, Some err)
  | (con, inl mode) =>
      let oldState := mkTerminalState mode in
      match SetConsoleMode con (rawMode mode) with
      | (con, Some err) => (con, None, Some err)
      | (con, None) => (con, Some oldState, None)
      end
  end.

(** [restoreTerminal]. *)
Definition restoreTerminal (con : Console) (state : option terminalState)
    : Console * option error :=
  match state with
  | None => (con, None)
  | Some s => SetConsoleMode con (mode s)
  end.

End Windows.
(* ===================================================================== *)
(** * Part II: properties                                                 *)
(* ===================================================================== *)

(** ** The style cascade *)

Lemma cascadeFormat_id (child : bytes) : cascadeFormat child = child.
Proof. now destruct child. Qed.

Lemma cascade_inherits {A : Type} (f : StylePrimitive -> option A)
    (parent child merged : StylePrimitive) :
  f merged = override (f parent) (f child) -> inherits f parent child merged.
Proof. unfold inherits, override. intros ->. reflexivity. Qed.

(** C1: for every parent, child and [toBlock], each optional colour
    (color, background), each of the nine boolean decorations, each of the
    three case transforms and each of the six scaling parameters of the
    merged style is the parent's value when the child leaves the field
    unset and the child's value when the child sets it, an explicit
    [false] included.  The function is a pure function of its arguments:
    it reads both styles and builds a new one. *)
Theorem cascadeStylePrimitive_inherits (parent child : StylePrimitive)
    (toBlock : bool) :
  let s := cascadeStylePrimitive parent child toBlock in
  (inherits Color parent child s /\ inherits BackgroundColor parent child s)
  /\ (inherits Bold parent child s /\ inherits Italic parent child s
      /\ inherits Underline parent child s /\ inherits CrossedOut parent child s
      /\ inherits Overlined parent child s /\ inherits Inverse parent child s
      /\ inherits Blink parent child s /\ inherits Faint parent child s
      /\ inherits Conceal parent child s)
  /\ (inherits Upper parent child s /\ inherits Lower parent child s
      /\ inherits Title parent child s)
  /\ (inherits KittyScale parent child s /\ inherits KittyWidth parent child s
      /\ inherits KittyNumerator parent child s
      /\ inherits KittyDenominator parent child s
      /\ inherits KittyVAlign parent child s
      /\ inherits KittyHAlign parent child s).
Proof.
  cbv zeta. repeat split; apply cascade_inherits; reflexivity.
Qed.

(** An explicit [false] of the child overrides a [true] of the parent. *)
Example cascade_explicit_false (parent child : StylePrimitive) (toBlock : bool) :
  Bold child = Some false ->
  Bold (cascadeStylePrimitive parent child toBlock) = Some false.
Proof. intros Hc. simpl. rewrite Hc. reflexivity. Qed.


(** ** The capability probe *)

Lemma int_sub_exact (a b : Z) : column a -> column b -> int_sub a b = (a - b)%Z.
Proof.
  unfold column, int_max, int_sub, wrap_int. intros Ha Hb.
  rewrite Z.mod_small; lia.
Qed.

Lemma classify_classification (c1 c2 c3 : Z) :
  column c1 -> column c2 -> column c3 ->
  classify c1 c2 c3 = classification c1 c2 c3.
Proof.
  intros H1 H2 H3. unfold classify, classification.
  rewrite !int_sub_exact by assumption.
  destruct (c2 =? c1)%Z; [reflexivity|].
  destruct (c2 - c1 =? 2)%Z, (c3 - c2 =? 2)%Z; reflexivity.
Qed.

Lemma Detect_classify (t : Terminal) (r1 c1 r2 c2 r3 c3 : Z) :
  IsTerminal t = true -> makeRaw t = None ->
  readCPR1 t = inl (r1, c1) -> readCPR2 t = inl (r2, c2) ->
  readCPR3 t = inl (r3, c3) ->
  (DetectKittyTextSizing t).1 = (classify c1 c2 c3, None).
Proof.
  intros Ht Hr H1 H2 H3. unfold DetectKittyTextSizing.
  rewrite Ht, Hr, H1, H2, H3. reflexivity.
Qed.

(** C3: when the probe has recorded the three columns, its result is None
    if C2 = C1, Full if C2 - C1 = 2 and C3 - C2 = 2, and WidthOnly if
    C2 - C1 = 2 and C3 - C2 is not 2; the columns (5,7,9) give Full,
    (5,5,5) None and (5,7,7) WidthOnly. *)
Theorem DetectKittyTextSizing_classification (t : Terminal)
    (r1 c1 r2 c2 r3 c3 : Z) :
  IsTerminal t = true -> makeRaw t = None ->
  readCPR1 t = inl (r1, c1) -> readCPR2 t = inl (r2, c2) ->
  readCPR3 t = inl (r3, c3) ->
  column c1 -> column c2 -> column c3 ->
  (DetectKittyTextSizing t).1 = (classification c1 c2 c3, None)
  /\ classify 5 7 9 = KittyTextSizingFull
  /\ classify 5 5 5 = KittyTextSizingNone
  /\ classify 5 7 7 = KittyTextSizingWidth.
Proof.
  intros Ht Hr H1 H2 H3 Hc1 Hc2 Hc3.
  split; [|repeat split].
  rewrite (Detect_classify t r1 c1 r2 c2 r3 c3) by assumption.
  rewrite classify_classification by assumption. reflexivity.
Qed.

(** A terminal that answers the three position requests with columns 5, 7
    and 9. *)
Lemma DetectKittyTextSizing_classification_witness :
  (DetectKittyTextSizing
     (mkTerminal true None (inl (1, 5)%Z) (inl (1, 7)%Z) (inl (1, 9)%Z))).1
    = (classification 5 7 9, None)
  /\ classify 5 7 9 = KittyTextSizingFull
  /\ classify 5 5 5 = KittyTextSizingNone
  /\ classify 5 7 7 = KittyTextSizingWidth.
Proof.
  apply (DetectKittyTextSizing_classification
           (mkTerminal true None (inl (1, 5)%Z) (inl (1, 7)%Z) (inl (1, 9)%Z))
           1 5 1 7 1 9);
    try reflexivity; unfold column, int_max; lia.
Defined.

(** ** Token rendering *)

Lemma renderText_lastCase {W : Type} {WW : Writer W} {TL : TextLibs} (w : W)
    (p : termenv.Profile) (rules : StylePrimitive) (c : ascii) (s : bytes) :
  renderText w p rules (c :: s)
  = WriteString w
      (termenv.Styled (decorate p rules (termenv.String (lastCase rules (c :: s))))).
Proof.
  unfold renderText, lastCase.
  destruct (isTrue (Title rules)), (isTrue (Lower rules)),
    (isTrue (Upper rules)); reflexivity.
Qed.

(** C6, as the code has it: when more than one case transform is set to
    true, the transform applied to a non-empty token is the last match in
    the order upper, lower, title, so title wins over lower and lower over
    upper; the later tests overwrite the result of the earlier ones. *)
Theorem renderText_last_case_wins {W : Type} {WW : Writer W} {TL : TextLibs} (w : W)
    (p : termenv.Profile) (rules : StylePrimitive) (c : ascii) (s : bytes) :
  renderText w p rules (c :: s)
  = WriteString w
      (termenv.Styled
         (decorate p rules
            (termenv.String
               (if isTrue (Title rules) then cases_Title (c :: s)
                else if isTrue (Lower rules) then cases_Lower (c :: s)
                else if isTrue (Upper rules) then cases_Upper (c :: s)
                else c :: s)))).
Proof. apply renderText_lastCase. Qed.

(** C6 as stated fails: with upper and title both true the token [ab] is
    rendered title-cased, [Ab], and not upper-cased. *)
Lemma upper_and_title_renders_title :
  let rules :=
    mkStylePrimitive [] [] [] None [] None None None None (Some true) None
      (Some true) None None None None None None None [] None None None None
      None None in
  renderText (W := bytes) (TL := AsciiText) [] PaletteProfile rules (lit "ab")
    = lit "Ab"
  /\ renderText (W := bytes) (TL := AsciiText) [] PaletteProfile rules (lit "ab")
     <> cases_Upper (TextLibs := AsciiText) (lit "ab").
Proof. cbv zeta. split; [reflexivity | discriminate]. Qed.

(** ** OSC 66 metadata *)

Lemma metaPart_In (key : bytes) (field : option Z) (guard : Z -> bool)
    (parts : list bytes) (x : bytes) :
  In x (metaPart key field guard parts) ->
  In x parts
  \/ exists v, field = Some v /\ guard v = true /\ x = key ++ lit "=" ++ fmt_d v.
Proof.
  unfold metaPart. destruct field as [v|]; [|auto].
  destruct (guard v) eqn:Hg; [|auto].
  rewrite in_app_iff. simpl. intros [Hin | [<- | []]]; [auto|].
  right. exists v. auto.
Qed.

(** What [buildKittyMetadata] does guarantee: every token of the metadata
    is [k=v] for a field that is set to [v], with [v] inside the range
    tested for [k]. *)
Lemma kittyParts_in_range (rules : StylePrimitive) (x : bytes) :
  In x (kittyParts rules) ->
  (exists v, KittyScale rules = Some v /\ (1 < v <= 7)%Z
             /\ x = lit "s=" ++ fmt_d v)
  \/ (exists v, KittyWidth rules = Some v /\ (v <= 7)%Z
                /\ x = lit "w=" ++ fmt_d v)
  \/ (exists v, KittyNumerator rules = Some v /\ (v <= 15)%Z
                /\ x = lit "n=" ++ fmt_d v)
  \/ (exists v, KittyDenominator rules = Some v /\ (v <= 15)%Z
                /\ x = lit "d=" ++ fmt_d v)
  \/ (exists v, KittyVAlign rules = Some v /\ (v <= 2)%Z
                /\ x = lit "v=" ++ fmt_d v)
  \/ (exists v, KittyHAlign rules = Some v /\ (v <= 2)%Z
                /\ x = lit "h=" ++ fmt_d v).
Proof.
  unfold kittyParts. intros Hin.
  repeat (apply metaPart_In in Hin; destruct Hin as [Hin | (v & Hf & Hg & ->)]);
    [destruct Hin | ..];
    rewrite ?andb_true_iff, ?Z.ltb_lt, ?Z.leb_le in Hg.
  - left. exists v. repeat split; [assumption | lia ..].
  - right. left. exists v. repeat split; [assumption | lia].
  - do 2 right. left. exists v. repeat split; [assumption | lia].
  - do 3 right. left. exists v. repeat split; [assumption | lia].
  - do 4 right. left. exists v. repeat split; [assumption | lia].
  - do 5 right. exists v. repeat split; [assumption | lia].
Qed.

(** A configured scale of 9 never appears as [s=9]. *)
Example scale_9_dropped :
  buildKittyMetadata
    (mkStylePrimitive [] [] [] None [] None None None None None None None
       None None None None None None None [] (Some 9%Z) None None None None
       None) = [].
Proof. reflexivity. Qed.

(** C8 at a numerator of 5 with a denominator of 3: both keys are
    written, although the denominator is not greater than the numerator. *)
Theorem buildKittyMetadata_denominator_unchecked :
  buildKittyMetadata
    (mkStylePrimitive [] [] [] None [] None None None None None None None
       None None None None None None None [] None None (Some 5%Z) (Some 3%Z)
       None None) = lit "n=5:d=3".
Proof. reflexivity. Qed.

(** ** Heading finalisation *)

Lemma Current_Some (bs : BlockStack) :
  1 <= length bs -> exists cur, Current bs = Some cur.
Proof.
  intros Hlen. unfold Current.
  destruct (lookup_lt_is_Some_2 bs (length bs - 1)) as [cur Hcur]; [lia|].
  exists cur. exact Hcur.
Qed.

Lemma Parent_Some (bs : BlockStack) :
  2 <= length bs -> exists par, Parent bs = Some par.
Proof.
  intros Hlen. unfold Parent.
  destruct (Nat.ltb_spec (length bs) 2) as [Hlt|_]; [lia|].
  destruct (lookup_lt_is_Some_2 bs (length bs - 2)) as [par Hpar]; [lia|].
  exists par. exact Hpar.
Qed.

Lemma Pop_length (bs : BlockStack) : length (Pop bs) = length bs - 1.
Proof. unfold Pop. rewrite length_take. lia. Qed.

Lemma Pop_Push (bs : BlockStack) (e : BlockElement) : Pop (Push bs e) = bs.
Proof.
  unfold Pop, Push. rewrite length_app. simpl.
  replace (length bs + 1 - 1) with (length bs) by lia.
  apply take_app_length.
Qed.

Lemma Buffer_Reset_String (h : Buffers) (a : nat) :
  Buffer_String (Buffer_Reset h a) a = [].
Proof.
  unfold Buffer_String, Buffer_Reset.
  destruct (decide (a < length h)) as [Hlt|Hge].
  - rewrite list_lookup_insert_eq by exact Hlt. reflexivity.
  - apply Nat.nlt_ge in Hge.
    rewrite (list_insert_ge h a []) by exact Hge.
    rewrite (lookup_ge_None_2 h a) by exact Hge. reflexivity.
Qed.

(** The state after [resetAndPop]: one entry fewer, the entry's buffer
    empty, the flag untouched. *)
Lemma resetAndPop_spec (st st' : RenderState) (cur : BlockElement) :
  Current (blockStack st) = Some cur ->
  resetAndPop st = Some st' ->
  blockStack st' = Pop (blockStack st)
  /\ Buffer_String (buffers st') (Block cur) = [].
Proof.
  intros Hcur. unfold resetAndPop. rewrite Hcur. simpl.
  intros [= <-]. simpl. split; [reflexivity | apply Buffer_Reset_String].
Qed.

(** Which branch [HeadingElement.Finish] takes. *)
Lemma Finish_branch {W : Type} {WW : Writer W} {TL : TextLibs} {CO : Collaborators}
    (e : HeadingElement) (w : W) (o : Options) (st : RenderState)
    (cur : BlockElement) :
  Current (blockStack st) = Some cur ->
  HeadingElement_Finish e w o st
  = if kittyTextSizingEnabled st
       && hasKittyTextSizing (primitive (BlockStyle cur))
    then scaledFinish w o st
    else standardFinish w o st.
Proof.
  intros Hcur. unfold HeadingElement_Finish. rewrite Hcur. reflexivity.
Qed.

(** C5 at a heading style that sets only the vertical alignment, with
    scaling enabled: the style carries a scaling parameter, yet
    [hasKittyTextSizing] is false and finalisation runs the standard
    branch, writing the buffered text and no marker. *)
Theorem Finish_valign_only_takes_standard_branch :
  let rules := scalingStyle None None None None (Some 1%Z) None in
  let st := inHeading true rules (lit "Title") in
  carriesScaling rules = true
  /\ hasKittyTextSizing rules = false
  /\ HeadingElement_Finish (W := bytes) (TL := AsciiText) (CO := PassThrough)
       (mkHeadingElement 2 true) [] plainOptions st
     = standardFinish (W := bytes) (TL := AsciiText) (CO := PassThrough)
         [] plainOptions st
  /\ HeadingElement_Finish (W := bytes) (TL := AsciiText) (CO := PassThrough)
       (mkHeadingElement 2 true) [] plainOptions st
     = Some (lit "Title",
             mkRenderState true [mkBlockElement 0 zeroStyleBlock] [[]; []],
             None).
Proof. cbv zeta. repeat split. Qed.

(** The same heading with the scale set takes the scaled branch: one
    marker and one compensating blank line. *)
Example Finish_scale_2_takes_scaled_branch :
  let rules := scalingStyle (Some 2%Z) None None None None None in
  HeadingElement_Finish (W := bytes) (TL := AsciiText) (CO := PassThrough)
    (mkHeadingElement 2 true) [] plainOptions
    (inHeading true rules (lit "Title"))
  = Some (kittyMarker (termenv.ESC :: lit "]66;s=2;Title" ++ ["007"%char])
            ++ ["010"%char],
          mkRenderState true [mkBlockElement 0 zeroStyleBlock] [[]; []],
          None).
Proof. vm_compute. reflexivity. Qed.

Lemma scaledFinish_pops {W : Type} {WW : Writer W} {TL : TextLibs} (w : W)
    (o : Options) (st : RenderState) (cur : BlockElement) :
  2 <= length (blockStack st) ->
  Current (blockStack st) = Some cur ->
  exists w' st',
    scaledFinish w o st = Some (w', st', None)
    /\ blockStack st' = Pop (blockStack st)
    /\ Buffer_String (buffers st') (Block cur) = [].
Proof.
  intros Hlen Hcur.
  destruct (Parent_Some (blockStack st) Hlen) as [par Hpar].
  unfold scaledFinish. rewrite Hcur. simpl. rewrite Hpar. simpl.
  unfold resetAndPop. rewrite Hcur. simpl.
  eexists _, _. split; [reflexivity|]. simpl.
  split; [reflexivity | apply Buffer_Reset_String].
Qed.

Lemma standardFinish_pops_or_fails {W : Type} {WW : Writer W} {TL : TextLibs}
    {CO : Collaborators} (w : W) (o : Options) (st : RenderState)
    (cur : BlockElement) :
  2 <= length (blockStack st) ->
  Current (blockStack st) = Some cur ->
  match standardFailure w o st cur with
  | Some (wf, err) => standardFinish w o st = Some (wf, st, Some err)
  | None =>
      exists w' st',
        standardFinish w o st = Some (w', st', None)
        /\ blockStack st' = Pop (blockStack st)
        /\ Buffer_String (buffers st') (Block cur) = []
  end.
Proof.
  intros Hlen Hcur.
  destruct (Parent_Some (blockStack st) Hlen) as [par Hpar].
  unfold standardFinish, standardFailure. rewrite Hcur.
  cbn [mbind option_bind]. cbv zeta.
  destruct (flow_Write _ _) as [[msg]|]; [reflexivity|].
  destruct (flow_Close _ _) as [[msg]|]; [reflexivity|].
  destruct (MarginWriter_Write _ _ _ _ _ _ _) as [w1 [err|]]; [reflexivity|].
  rewrite Hpar. cbn [mbind option_bind]. unfold resetAndPop. rewrite Hcur.
  cbn [mbind option_bind].
  eexists _, _. split; [reflexivity|]. cbn [blockStack buffers].
  split; [reflexivity | apply Buffer_Reset_String].
Qed.

(** What [HeadingElement.Finish] returns on a stack with an entry above
    the root, and the state it leaves. *)
Lemma Finish_outcome {W : Type} {WW : Writer W} {TL : TextLibs}
    {CO : Collaborators} (e : HeadingElement) (w : W) (o : Options)
    (st : RenderState) :
  2 <= length (blockStack st) ->
  exists cur,
    Current (blockStack st) = Some cur
    /\ match finishFailure w o st cur with
       | Some (wf, err) =>
           HeadingElement_Finish e w o st = Some (wf, st, Some err)
       | None =>
           exists w' st',
             HeadingElement_Finish e w o st = Some (w', st', None)
             /\ blockStack st' = Pop (blockStack st)
             /\ S (length (blockStack st')) = length (blockStack st)
             /\ Buffer_String (buffers st') (Block cur) = []
       end.
Proof.
  intros Hlen.
  destruct (Current_Some (blockStack st)) as [cur Hcur]; [lia|].
  exists cur. split; [exact Hcur|].
  rewrite (Finish_branch e w o st cur Hcur).
  unfold finishFailure, IsKittyTextSizingEnabled.
  destruct (kittyTextSizingEnabled st && _).
  - destruct (scaledFinish_pops w o st cur Hlen Hcur) as (w' & st' & Hf & Hp & Hb).
    exists w', st'. repeat split; try assumption.
    rewrite Hp, Pop_length. lia.
  - pose proof (standardFinish_pops_or_fails w o st cur Hlen Hcur) as Hs.
    destruct (standardFailure w o st cur) as [[wf err]|]; [exact Hs|].
    destruct Hs as (w' & st' & Hf & Hp & Hb).
    exists w', st'. repeat split; try assumption.
    rewrite Hp, Pop_length. lia.
Qed.

(** C4, as the code has it: on a stack that holds the heading's entry
    above the root, and with a writer that is not that entry's buffer,
    [HeadingElement.Finish] returns, and whether with an error is
    determined.  The scaled branch never returns one.  The standard branch
    returns one exactly when word-wrap write, word-wrap close or the
    margin-writer write fails: it then returns at once, with the error of
    the first of them to fail and the writer as that step left it, and the
    entry is still on the stack, the stack as it was and the entry's
    buffer still holding its text.  In every other case, in the scaled and
    in the standard branch, it returns without an error and has reset the
    entry's buffer and popped exactly one entry. *)
Theorem Finish_pops_unless_error {W : Type} {WW : Writer W} {TL : TextLibs}
    {CO : Collaborators} (e : HeadingElement) (w : W) (o : Options)
    (st : RenderState) :
  2 <= length (blockStack st) ->
  exists cur,
    Current (blockStack st) = Some cur
    /\ match finishFailure w o st cur with
       | Some (wf, err) =>
           exists st',
             HeadingElement_Finish e w o st = Some (wf, st', Some err)
             /\ blockStack st' = blockStack st
             /\ Buffer_String (buffers st') (Block cur)
                = Buffer_String (buffers st) (Block cur)
       | None =>
           exists w' st',
             HeadingElement_Finish e w o st = Some (w', st', None)
             /\ blockStack st' = Pop (blockStack st)
             /\ S (length (blockStack st')) = length (blockStack st)
             /\ Buffer_String (buffers st') (Block cur) = []
       end.
Proof.
  intros Hlen.
  destruct (Finish_outcome e w o st Hlen) as (cur & Hcur & Hf).
  exists cur. split; [exact Hcur|].
  destruct (finishFailure w o st cur) as [[wf err]|]; [|exact Hf].
  exists st. repeat split. exact Hf.
Qed.

Lemma Finish_pops_unless_error_witness :
  exists cur,
    Current (blockStack (inHeading false zeroStylePrimitive (lit "Title")))
      = Some cur
    /\ match
         finishFailure (W := bytes) (CO := PassThrough) [] plainOptions
           (inHeading false zeroStylePrimitive (lit "Title")) cur
       with
       | Some (wf, err) =>
           exists st',
             HeadingElement_Finish (W := bytes) (TL := AsciiText)
               (CO := PassThrough) (mkHeadingElement 1 true) [] plainOptions
               (inHeading false zeroStylePrimitive (lit "Title"))
             = Some (wf, st', Some err)
             /\ blockStack st'
                = blockStack (inHeading false zeroStylePrimitive (lit "Title"))
             /\ Buffer_String (buffers st') (Block cur)
                = Buffer_String
                    (buffers (inHeading false zeroStylePrimitive (lit "Title")))
                    (Block cur)
       | None =>
           exists w' st',
             HeadingElement_Finish (W := bytes) (TL := AsciiText)
               (CO := PassThrough) (mkHeadingElement 1 true) [] plainOptions
               (inHeading false zeroStylePrimitive (lit "Title"))
             = Some (w', st', None)
             /\ blockStack st'
                = Pop (blockStack
                         (inHeading false zeroStylePrimitive (lit "Title")))
             /\ S (length (blockStack st'))
                = length (blockStack
                            (inHeading false zeroStylePrimitive (lit "Title")))
             /\ Buffer_String (buffers st') (Block cur) = []
       end.
Proof.
  apply (Finish_pops_unless_error (W := bytes) (TL := AsciiText)
           (CO := PassThrough) (mkHeadingElement 1 true) [] plainOptions
           (inHeading false zeroStylePrimitive (lit "Title"))).
  simpl. lia.
Defined.

(** C4 as stated fails on an error exit: when the margin writer's write
    to a closed writer fails, [Finish] returns the error and the heading's
    entry is still on the stack, its buffer still full. *)
Lemma error_exit_leaves_heading_on_stack :
  let st := inHeading false zeroStylePrimitive (lit "Title") in
  HeadingElement_Finish (W := ClosedWriter) (TL := AsciiText)
    (CO := PassThrough) (mkHeadingElement 1 true) closedWriter plainOptions st
  = Some (closedWriter, st, Some (Error (lit "write: broken pipe")))
  /\ length (blockStack st) = 2
  /\ Buffer_String (buffers st) 1 = lit "Title".
Proof. cbv zeta. repeat split. Qed.

(** Entering a heading pushes one entry, and finishing it without an
    error brings the stack back to its depth before the heading. *)
Lemma heading_depth_restored {W : Type} {WW : Writer W} {TL : TextLibs}
    {CO : Collaborators} (e : HeadingElement) (w w1 w2 : W) (o : Options)
    (st st1 st2 : RenderState) :
  HeadingElement_Render e w o st = Some (w1, st1, None) ->
  HeadingElement_Finish e w1 o st1 = Some (w2, st2, None) ->
  blockStack st2 = blockStack st.
Proof.
  unfold HeadingElement_Render.
  destruct (Current (blockStack st)) as [cur|] eqn:Hcur; [simpl|discriminate].
  destruct (Parent _) as [par|] eqn:Hpar; [simpl|discriminate].
  destruct (Current (Push _ _)) as [cur1|] eqn:Hcur1; [simpl|discriminate].
  destruct (renderText (_, Block cur1) _ _ _) as [h a].
  intros [= _ <-] Hfin.
  assert (Hlen : 2 <= length (Push (blockStack st)
            (mkBlockElement (length (buffers st))
               (cascadeStyle (BlockStyle cur) (headingRules e (Styles o)) false)))).
  { unfold Parent in Hpar. destruct (Nat.ltb_spec (length (Push (blockStack st)
      (mkBlockElement (length (buffers st))
         (cascadeStyle (BlockStyle cur) (headingRules e (Styles o)) false)))) 2);
      [discriminate | assumption]. }
  match type of Hfin with HeadingElement_Finish _ _ _ ?s = _ =>
    destruct (Finish_outcome e w1 o s Hlen) as (c & _ & Hf) end.
  destruct (finishFailure _ _ _ _) as [[wf err]|].
  - rewrite Hf in Hfin. discriminate.
  - destruct Hf as (w' & st' & Hf & Hp & _).
    rewrite Hf in Hfin. injection Hfin as _ <-.
    rewrite Hp. simpl. apply Pop_Push.
Qed.

(** ** Images *)

Lemma kittyLookup_not_found (c : KittyImageConfig)
    (cache : bytes -> Z * Z * Z * bool) (url : bytes) (id cols rows : Z) :
  ImageCache c = Some cache -> cache url = (id, cols, rows, false) ->
  kittyLookup (Some c) url = None.
Proof.
  intros Hc Hu. unfold kittyLookup. rewrite Hc, Hu.
  destruct (Enabled c); reflexivity.
Qed.

(** [ImageElement.Render] does fall back without a trace: when the lookup
    does not find the URL, it renders exactly what it renders without
    graphics. *)
Lemma ImageElement_Render_not_found {W : Type} {WW : Writer W}
    {TL : TextLibs} {CO : Collaborators} (e : ImageElement) (w : W)
    (o : Options) (st : RenderState) (c : KittyImageConfig)
    (cache : bytes -> Z * Z * Z * bool) (id cols rows : Z) :
  kittyImageConfig o = Some c -> ImageCache c = Some cache ->
  cache (URL e) = (id, cols, rows, false) ->
  ImageElement_Render e w o st = ImageElement_Render e w (withoutGraphics o) st.
Proof.
  intros Ho Hc Hu. unfold ImageElement_Render. rewrite Ho.
  rewrite (kittyLookup_not_found c cache (URL e) id cols rows Hc Hu).
  reflexivity.
Qed.

(** With empty styles the fallback is the alternative text, one space and
    the URL. *)
Example ImageElement_Render_fallback :
  ImageElement_Render (W := bytes) (TL := AsciiText) (CO := PassThrough)
    (mkImageElement (lit "logo") [] (lit "x.png") false) []
    (mkOptions (Styles plainOptions) PaletteProfile
       (Some (mkKittyImageConfig true (Some (fun _ => (0, 0, 0, false)%Z)))))
    (mkRenderState false [mkBlockElement 0 zeroStyleBlock] [[]])
  = Some (lit "logo x.png", None).
Proof. reflexivity. Qed.

(** C9 at an image whose URL the cache does not know, in the node
    renderer [renderImage]: with graphics enabled it writes a notice
    before handing the node on, where with graphics disabled it writes
    nothing, so the two outputs differ. *)
Theorem renderImage_not_found_writes_notice :
  let notFound : bytes -> Z * Z * Z * bool := fun _ => (0, 0, 0, false)%Z in
  renderImage (W := bytes) (mkKittyImageConfig true (Some notFound)) []
    (lit "x.png") true
  = (lit "[IMAGE NOT IN CACHE: x.png]", WalkContinue)
  /\ renderImage (W := bytes) (mkKittyImageConfig false (Some notFound)) []
       (lit "x.png") true
     = ([], WalkContinue).
Proof. cbv zeta. split; reflexivity. Qed.

(** ** base64: decoding inverts encoding *)

Module Base64Facts.
Import Base64.
Local Open Scope Z_scope.

(** Bitwise or of a shifted value and a value that fits below the shift is
    their sum. *)
Lemma land_shiftl_small (x y k : Z) :
  0 <= k -> 0 <= y < 2 ^ k -> Z.land (Z.shiftl x k) y = 0.
Proof.
  intros Hk Hy. apply Z.bits_inj'. intros n Hn.
  rewrite Z.land_spec, Z.bits_0.
  destruct (Z.lt_ge_cases n k) as [Hlt|Hge].
  - rewrite Z.shiftl_spec_low by assumption. reflexivity.
  - rewrite <- (Z.mod_small y (2 ^ k)) by assumption.
    rewrite Z.mod_pow2_bits_high by lia. apply andb_false_r.
Qed.

Lemma lor_shiftl_small (x y k : Z) :
  0 <= k -> 0 <= y < 2 ^ k -> Z.lor (Z.shiftl x k) y = x * 2 ^ k + y.
Proof.
  intros Hk Hy. rewrite <- (Z.shiftl_mul_pow2 x k Hk).
  rewrite <- Z.add_lor_land, land_shiftl_small by assumption. lia.
Qed.

Lemma val_of_range (a : ascii) : 0 <= val_of a < 256.
Proof.
  unfold val_of. pose proof (N_ascii_bounded a). lia.
Qed.

Lemma byte_of_val_of (a : ascii) : byte_of (val_of a) = a.
Proof.
  unfold byte_of. rewrite Z.mod_small by apply val_of_range.
  unfold val_of. rewrite N2Z.id. apply ascii_N_embedding.
Qed.

Lemma group3 (a b c : Z) :
  0 <= a < 256 -> 0 <= b < 256 -> 0 <= c < 256 ->
  Z.lor (Z.lor (Z.shiftl a 16) (Z.shiftl b 8)) c = a * 65536 + b * 256 + c.
Proof.
  intros Ha Hb Hc.
  rewrite (Z.shiftl_mul_pow2 b 8) by lia.
  rewrite (lor_shiftl_small a (b * 2 ^ 8) 16) by lia.
  replace (a * 2 ^ 16 + b * 2 ^ 8) with (Z.shiftl (a * 2 ^ 8 + b) 8)
    by (rewrite Z.shiftl_mul_pow2 by lia; lia).
  rewrite lor_shiftl_small by lia. lia.
Qed.

Lemma sextet (v k : Z) : 0 <= k -> Z.land (Z.shiftr v k) 63 = (v / 2 ^ k) mod 64.
Proof.
  intros Hk. rewrite Z.shiftr_div_pow2 by assumption.
  change 63 with (Z.ones 6). rewrite Z.land_ones by lia. reflexivity.
Qed.

Lemma sextet0 (v : Z) : Z.land v 63 = v mod 64.
Proof. change 63 with (Z.ones 6). rewrite Z.land_ones by lia. reflexivity. Qed.

Lemma assemble_sum (d0 d1 d2 d3 : Z) :
  0 <= d0 < 64 -> 0 <= d1 < 64 -> 0 <= d2 < 64 -> 0 <= d3 < 64 ->
  assemble d0 d1 d2 d3 = d0 * 262144 + d1 * 4096 + d2 * 64 + d3.
Proof.
  intros H0 H1 H2 H3. unfold assemble.
  rewrite (Z.shiftl_mul_pow2 d1 12), (Z.shiftl_mul_pow2 d2 6) by lia.
  rewrite (lor_shiftl_small d0 (d1 * 2 ^ 12) 18) by lia.
  replace (d0 * 2 ^ 18 + d1 * 2 ^ 12) with (Z.shiftl (d0 * 2 ^ 6 + d1) 12)
    by (rewrite Z.shiftl_mul_pow2 by lia; lia).
  rewrite (lor_shiftl_small _ (d2 * 2 ^ 6) 12) by lia.
  replace ((d0 * 2 ^ 6 + d1) * 2 ^ 12 + d2 * 2 ^ 6)
    with (Z.shiftl ((d0 * 2 ^ 6 + d1) * 2 ^ 6 + d2) 6)
    by (rewrite Z.shiftl_mul_pow2 by lia; lia).
  rewrite lor_shiftl_small by lia. lia.
Qed.

Lemma decodeMap_encode (i : Z) : 0 <= i < 64 -> decodeMap (encode i) = i.
Proof.
  intros Hi. rewrite <- (Z2Nat.id i) by lia.
  assert (Hn : (Z.to_nat i < 64)%nat) by lia.
  generalize dependent (Z.to_nat i). clear. intros n Hn.
  do 64 (destruct n as [|n]; [vm_compute; reflexivity|]). lia.
Qed.

Lemma decodeMap_valid (i : Z) :
  0 <= i < 64 -> negb (decodeMap (encode i) =? 255) = true.
Proof. intros Hi. rewrite decodeMap_encode by assumption. apply negb_true_iff, Z.eqb_neq. lia. Qed.

Lemma byte_of_eq (v w : Z) : v mod 256 = w mod 256 -> byte_of v = byte_of w.
Proof. unfold byte_of. intros ->. reflexivity. Qed.

Lemma mod64_range (v : Z) : 0 <= v mod 64 < 64.
Proof. apply Z.mod_pos_bound. lia. Qed.

Lemma Decode_group3 (a b c : ascii) (rest : list ascii) :
  Decode (Encode (a :: b :: c :: rest)) Q0
  = (fun tl => a :: b :: c :: tl) <$> Decode (Encode rest) Q0.
Proof.
  pose proof (val_of_range a) as Ha. pose proof (val_of_range b) as Hb.
  pose proof (val_of_range c) as Hc.
  cbn [Encode]. rewrite group3 by assumption.
  rewrite !sextet by lia. rewrite sextet0.
  cbn [Decode]. rewrite !decodeMap_valid by apply mod64_range.
  rewrite !decodeMap_encode by apply mod64_range.
  rewrite assemble_sum by apply mod64_range.
  set (val := val_of a * 65536 + val_of b * 256 + val_of c).
  assert (Hv : val / 2 ^ 18 mod 64 * 262144 + val / 2 ^ 12 mod 64 * 4096
               + val / 2 ^ 6 mod 64 * 64 + val mod 64 = val).
  { subst val. Z.div_mod_to_equations. lia. }
  rewrite Hv. rewrite !Z.shiftr_div_pow2 by lia.
  assert (E1 : byte_of (val / 2 ^ 16) = a).
  { rewrite <- (byte_of_val_of a). apply byte_of_eq.
    subst val. Z.div_mod_to_equations. lia. }
  assert (E2 : byte_of (val / 2 ^ 8) = b).
  { rewrite <- (byte_of_val_of b). apply byte_of_eq.
    subst val. Z.div_mod_to_equations. lia. }
  assert (E3 : byte_of (val / 2 ^ 0) = c).
  { rewrite <- (byte_of_val_of c). apply byte_of_eq.
    subst val. Z.div_mod_to_equations. lia. }
  rewrite E1, E2, E3. reflexivity.
Qed.

Lemma Decode_group2 (a b : ascii) : Decode (Encode [a; b]) Q0 = Some [a; b].
Proof.
  pose proof (val_of_range a) as Ha. pose proof (val_of_range b) as Hb.
  cbn [Encode].
  rewrite (Z.shiftl_mul_pow2 (val_of b) 8) by lia.
  rewrite (lor_shiftl_small (val_of a) (val_of b * 2 ^ 8) 16) by lia.
  rewrite !sextet by lia.
  cbn [Decode]. rewrite !decodeMap_valid by apply mod64_range.
  rewrite !decodeMap_encode by apply mod64_range.
  change (negb (decodeMap padChar =? 255)) with false.
  change (isNewline padChar) with false.
  cbn [negb byte_eqb skipNewlines]. change (byte_eqb padChar padChar) with true.
  cbn [negb].
  rewrite assemble_sum by (try apply mod64_range; lia).
  set (val := val_of a * 2 ^ 16 + val_of b * 2 ^ 8).
  rewrite !Z.shiftr_div_pow2 by lia.
  assert (E1 : byte_of ((val / 2 ^ 18 mod 64 * 262144 + val / 2 ^ 12 mod 64 * 4096
                         + val / 2 ^ 6 mod 64 * 64 + 0) / 2 ^ 16) = a).
  { rewrite <- (byte_of_val_of a). apply byte_of_eq.
    subst val. Z.div_mod_to_equations. lia. }
  assert (E2 : byte_of ((val / 2 ^ 18 mod 64 * 262144 + val / 2 ^ 12 mod 64 * 4096
                         + val / 2 ^ 6 mod 64 * 64 + 0) / 2 ^ 8) = b).
  { rewrite <- (byte_of_val_of b). apply byte_of_eq.
    subst val. Z.div_mod_to_equations. lia. }
  rewrite E1, E2. reflexivity.
Qed.

Lemma Decode_group1 (a : ascii) : Decode (Encode [a]) Q0 = Some [a].
Proof.
  pose proof (val_of_range a) as Ha.
  cbn [Encode].
  rewrite (Z.shiftl_mul_pow2 (val_of a) 16) by lia.
  rewrite !sextet by lia.
  cbn [Decode]. rewrite !decodeMap_valid by apply mod64_range.
  rewrite !decodeMap_encode by apply mod64_range.
  change (negb (decodeMap padChar =? 255)) with false.
  change (isNewline padChar) with false.
  cbn [negb byte_eqb skipNewlines]. change (byte_eqb padChar padChar) with true.
  change (isNewline padChar) with false.
  cbn [negb skipNewlines].
  rewrite assemble_sum by (try apply mod64_range; lia).
  set (val := val_of a * 2 ^ 16).
  rewrite !Z.shiftr_div_pow2 by lia.
  assert (E1 : byte_of ((val / 2 ^ 18 mod 64 * 262144 + val / 2 ^ 12 mod 64 * 4096
                         + 0 * 64 + 0) / 2 ^ 16) = a).
  { rewrite <- (byte_of_val_of a). apply byte_of_eq.
    subst val. Z.div_mod_to_equations. lia. }
  rewrite E1. reflexivity.
Qed.

Lemma bytes_ind3 (P : list ascii -> Prop) :
  P [] -> (forall a, P [a]) -> (forall a b, P [a; b]) ->
  (forall a b c rest, P rest -> P (a :: b :: c :: rest)) ->
  forall s, P s.
Proof.
  intros H0 H1 H2 H3.
  fix IH 1. intros [|a [|b [|c rest]]]; [exact H0 | apply H1 | apply H2 |].
  apply H3, IH.
Qed.

Lemma DecodeString_EncodeToString (s : list ascii) :
  DecodeString (EncodeToString s) = Some s.
Proof.
  unfold DecodeString, EncodeToString.
  induction s as [|a|a b|a b c rest IH] using bytes_ind3.
  - reflexivity.
  - apply Decode_group1.
  - apply Decode_group2.
  - rewrite Decode_group3, IH. reflexivity.
Qed.

(** The decoded text is never longer than the encoded one: a quantum of
    four characters yields at most three bytes. *)

Lemma Decode_length (src : list ascii) :
  forall (q : quantum) (d : list ascii),
    Decode src q = Some d -> (length d <= length src + held q)%nat.
Proof.
  induction src as [|c rest IH]; intros q d.
  - destruct q; simpl; intros [= <-] || discriminate. simpl. lia.
  - cbn [Decode].
    destruct (negb (decodeMap c =? 255)).
    + destruct q as [|d0|d0 d1|d0 d1 d2].
      * intros Hd. apply IH in Hd. simpl in *. lia.
      * intros Hd. apply IH in Hd. simpl in *. lia.
      * intros Hd. apply IH in Hd. simpl in *. lia.
      * destruct (Decode rest Q0) as [tl|] eqn:Htl; [|discriminate].
        simpl. intros [= <-]. apply IH in Htl. simpl in *. lia.
    + destruct (isNewline c).
      * intros Hd. apply IH in Hd. simpl. lia.
      * destruct (negb (byte_eqb c padChar)); [discriminate|].
        destruct q as [|d0|d0 d1|d0 d1 d2]; try discriminate.
        -- destruct (skipNewlines rest) as [|c2 rest2]; [discriminate|].
           destruct (negb (byte_eqb c2 padChar)); [discriminate|].
           destruct (skipNewlines rest2); [|discriminate].
           intros [= <-]. simpl. lia.
        -- destruct (skipNewlines rest); [|discriminate].
           intros [= <-]. simpl. lia.
Qed.

Lemma DecodeString_length (s d : list ascii) :
  DecodeString s = Some d -> (length d <= length s)%nat.
Proof.
  intros Hd. apply Decode_length in Hd. simpl in Hd. lia.
Qed.

Lemma alphabetic_encode (i : Z) : 0 <= i < 64 -> alphabetic (encode i) = true.
Proof.
  intros Hi. unfold alphabetic. rewrite decodeMap_valid by assumption.
  reflexivity.
Qed.

Lemma alphabetic_not_sentinel (c : ascii) :
  alphabetic c = true ->
  byte_eqb ":"%char c = false /\ byte_eqb "_"%char c = false.
Proof.
  destruct c as [[] [] [] [] [] [] [] []]; vm_compute;
    intros Hc; (split; reflexivity) || discriminate Hc.
Qed.

Lemma Encode_alphabetic (s : list ascii) :
  Forall (fun c => alphabetic c = true) (Encode s).
Proof.
  induction s as [|a|a b|a b c rest IH] using bytes_ind3; cbn [Encode].
  - constructor.
  - rewrite !sextet by lia.
    repeat constructor; apply alphabetic_encode, mod64_range.
  - rewrite !sextet by lia.
    repeat constructor; apply alphabetic_encode, mod64_range.
  - rewrite !sextet by lia. rewrite sextet0.
    repeat (constructor; [apply alphabetic_encode, mod64_range|]). exact IH.
Qed.

(** An encoding is empty or at least one quantum long. *)
Lemma Encode_shape (s : list ascii) :
  Encode s = [] \/ exists e0 e1 e2 e3 rest, Encode s = e0 :: e1 :: e2 :: e3 :: rest.
Proof.
  destruct s as [|a [|b [|c rest]]]; [left; reflexivity | right ..];
    cbn [Encode]; eexists _, _, _, _, _; reflexivity.
Qed.

End Base64Facts.

(** ** Searching in Go strings *)

Lemma byte_eqb_eq (a b : ascii) : byte_eqb a b = true <-> a = b.
Proof. apply Ascii.eqb_eq. Qed.

Lemma byte_eqb_refl (a : ascii) : byte_eqb a a = true.
Proof. apply Ascii.eqb_refl. Qed.

Lemma HasPrefix_app (p t : list ascii) : HasPrefix (p ++ t) p = true.
Proof.
  induction p as [|c p IH]; simpl; [reflexivity|].
  rewrite byte_eqb_refl. exact IH.
Qed.

Lemma HasPrefix_true (s p : list ascii) :
  HasPrefix s p = true -> exists t, s = p ++ t.
Proof.
  revert s. induction p as [|c p IH]; intros s; simpl.
  - intros _. exists s. reflexivity.
  - destruct s as [|d s]; [discriminate|].
    rewrite andb_true_iff, byte_eqb_eq. intros [-> Hp].
    destruct (IH s Hp) as [t ->]. exists t. reflexivity.
Qed.

(** Only the first [len(p)] bytes of [s] matter. *)
Lemma HasPrefix_app_long (s t p : list ascii) :
  length p <= length s -> HasPrefix (s ++ t) p = HasPrefix s p.
Proof.
  revert s. induction p as [|c p IH]; intros s Hlen; simpl.
  - destruct (s ++ t), s; reflexivity.
  - destruct s as [|d s]; simpl in *; [lia|].
    rewrite IH by lia. reflexivity.
Qed.

Lemma HasPrefix_nil (p : list ascii) : p <> [] -> HasPrefix [] p = false.
Proof. destruct p; [congruence | reflexivity]. Qed.

Lemma Index_Some (sep s : list ascii) :
  forall i, Index s sep = Some i ->
    i <= length s
    /\ HasPrefix (drop i s) sep = true
    /\ forall j, j < i -> HasPrefix (drop j s) sep = false.
Proof.
  induction s as [|c s IH]; intros i; cbn [Index].
  - destruct (HasPrefix [] sep) eqn:Hp; [|discriminate].
    intros [= <-]. repeat split; [lia | exact Hp | lia].
  - destruct (HasPrefix (c :: s) sep) eqn:Hp.
    + intros [= <-]. repeat split; [simpl; lia | exact Hp | lia].
    + destruct (Index s sep) as [k|] eqn:Hk; [|discriminate].
      simpl. intros [= <-]. destruct (IH k eq_refl) as (Hle & Hk1 & Hk2).
      repeat split; [simpl; lia | exact Hk1 |].
      intros [|j] Hj; [exact Hp|]. simpl. apply Hk2. lia.
Qed.

Lemma Index_None (sep s : list ascii) :
  Index s sep = None -> forall j, HasPrefix (drop j s) sep = false.
Proof.
  induction s as [|c s IH]; cbn [Index].
  - destruct (HasPrefix [] sep) eqn:Hp; [discriminate|].
    intros _ j. rewrite drop_nil. exact Hp.
  - destruct (HasPrefix (c :: s) sep) eqn:Hp; [discriminate|].
    destruct (Index s sep) eqn:Hk; [discriminate|].
    intros _ [|j]; [exact Hp|]. simpl. apply IH. reflexivity.
Qed.

Lemma Index_intro (sep s : list ascii) :
  forall i, i <= length s ->
    HasPrefix (drop i s) sep = true ->
    (forall j, j < i -> HasPrefix (drop j s) sep = false) ->
    Index s sep = Some i.
Proof.
  induction s as [|c s IH]; intros i Hle Hp Hfirst; cbn [Index].
  - simpl in Hle. assert (i = 0) as -> by lia. simpl in Hp. rewrite Hp. reflexivity.
  - destruct i as [|i].
    + simpl in Hp. rewrite Hp. reflexivity.
    + pose proof (Hfirst 0 ltac:(lia)) as H0. simpl in H0. rewrite H0. simpl in Hp.
      rewrite (IH i); [reflexivity | simpl in Hle; lia | exact Hp |].
      intros j Hj. apply (Hfirst (S j)). lia.
Qed.

Lemma Index_app_first (sep a t : list ascii) :
  (forall j, j < length a -> HasPrefix (drop j a ++ sep ++ t) sep = false) ->
  Index (a ++ sep ++ t) sep = Some (length a).
Proof.
  intros Hfirst. apply Index_intro.
  - rewrite length_app. lia.
  - rewrite drop_app_length. apply HasPrefix_app.
  - intros j Hj. rewrite drop_app_le by lia. apply Hfirst, Hj.
Qed.

(** *** Slices *)

Lemma slice_Some (s : list ascii) (lo hi : nat) :
  lo <= hi -> hi <= length s -> slice s lo hi = Some (take (hi - lo) (drop lo s)).
Proof.
  intros H1 H2. unfold slice.
  destruct (Nat.leb_spec lo hi); [|lia].
  destruct (Nat.leb_spec hi (length s)); [|lia]. reflexivity.
Qed.

Lemma slice_inv (s r : list ascii) (lo hi : nat) :
  slice s lo hi = Some r ->
  lo <= hi /\ hi <= length s /\ r = take (hi - lo) (drop lo s).
Proof.
  unfold slice.
  destruct (Nat.leb_spec lo hi); [|discriminate].
  destruct (Nat.leb_spec hi (length s)); [|discriminate].
  intros [= <-]. auto.
Qed.

Lemma slice_middle (x y z : list ascii) :
  slice (x ++ y ++ z) (length x) (length x + length y) = Some y.
Proof.
  rewrite slice_Some by (rewrite ?length_app; lia).
  rewrite drop_app_length.
  replace (length x + length y - length x) with (length y) by lia.
  rewrite take_app_length. reflexivity.
Qed.

Lemma slice_to_app (x y : list ascii) : slice_to (x ++ y) (length x) = Some x.
Proof.
  unfold slice_to. rewrite slice_Some by (rewrite ?length_app; lia).
  rewrite Nat.sub_0_r, drop_0, take_app_length. reflexivity.
Qed.

Lemma slice_from_app (x y : list ascii) : slice_from (x ++ y) (length x) = Some y.
Proof.
  unfold slice_from. rewrite slice_Some by (rewrite ?length_app; lia).
  rewrite drop_app_length. rewrite take_ge by (rewrite length_app; lia).
  reflexivity.
Qed.

(** *** One iteration of the decoding loop *)

(** The step on a text whose leftmost opening sentinel starts a complete
    marker with content [c]: the marker is replaced by the decoding of
    [c], or by nothing when [c] does not decode. *)
Lemma decodeStep_marker (a c b : list ascii) :
  Index (a ++ markerPrefix ++ c ++ markerSuffix ++ b) markerPrefix
    = Some (length a) ->
  Index (markerPrefix ++ c ++ markerSuffix ++ b) markerSuffix
    = Some (length markerPrefix + length c) ->
  decodeStep (a ++ markerPrefix ++ c ++ markerSuffix ++ b)
  = Some (inr (a ++ default [] (base64Decode c) ++ b)).
Proof.
  intros H1 H2. unfold decodeStep. rewrite H1.
  rewrite slice_from_app. cbn [mbind option_bind]. rewrite H2.
  replace (a ++ markerPrefix ++ c ++ markerSuffix ++ b)
    with ((a ++ markerPrefix) ++ c ++ markerSuffix ++ b) at 1
    by (rewrite <- !app_assoc; reflexivity).
  replace (length a + length markerPrefix) with (length (a ++ markerPrefix))
    by (rewrite length_app; reflexivity).
  replace (length markerPrefix + length c + length a)
    with (length (a ++ markerPrefix) + length c)
    by (rewrite length_app; lia).
  rewrite slice_middle. cbn [mbind option_bind].
  rewrite slice_to_app. cbn [mbind option_bind].
  replace (a ++ markerPrefix ++ c ++ markerSuffix ++ b)
    with ((a ++ markerPrefix ++ c ++ markerSuffix) ++ b)
    by (rewrite <- !app_assoc; reflexivity).
  replace (length (a ++ markerPrefix) + length c + length markerSuffix)
    with (length (a ++ markerPrefix ++ c ++ markerSuffix))
    by (rewrite !length_app; lia).
  rewrite slice_from_app. cbn [mbind option_bind].
  destruct (base64Decode c); reflexivity.
Qed.


Lemma decodeStep_no_marker (r : list ascii) :
  Index r markerPrefix = None -> decodeStep r = Some (inl r).
Proof. intros H1. unfold decodeStep. rewrite H1. reflexivity. Qed.

(** Every round of the loop shortens the text. *)
Lemma decodeStep_shrinks (r r' : list ascii) :
  decodeStep r = Some (inr r') -> length r' < length r.
Proof.
  unfold decodeStep.
  destruct (Index r markerPrefix) as [startIdx|]; [|discriminate].
  destruct (slice_from r startIdx) as [tl|]; [|discriminate].
  cbn [mbind option_bind].
  destruct (Index tl markerSuffix) as [endIdx|]; [|discriminate].
  destruct (slice r _ _) as [b64|] eqn:Hb64; [|discriminate].
  cbn [mbind option_bind].
  destruct (slice_to r startIdx) as [before|] eqn:Hbefore; [|discriminate].
  cbn [mbind option_bind].
  destruct (slice_from r _) as [after|] eqn:Hafter; [|discriminate].
  cbn [mbind option_bind].
  apply slice_inv in Hb64 as (Hb1 & Hb2 & ->).
  apply slice_inv in Hbefore as (_ & Hc2 & ->).
  apply slice_inv in Hafter as (Ha1 & _ & ->).
  change (length markerPrefix) with 16 in *.
  change (length markerSuffix) with 20 in *.
  destruct (base64Decode _) as [decoded|] eqn:Hdec; intros [= <-].
  - apply Base64Facts.DecodeString_length in Hdec.
    rewrite !length_app, !length_take, !length_drop in *. lia.
  - rewrite !length_app, !length_take, !length_drop in *. lia.
Qed.

(** *** The loop *)

Lemma decodeLoop_fuel (fuel : nat) :
  forall r, length r < fuel -> decodeLoop fuel r = decodeLoop (S (length r)) r.
Proof.
  induction fuel as [fuel IH] using lt_wf_ind. intros r Hlen.
  destruct fuel as [|fuel]; [lia|]. cbn [decodeLoop].
  destruct (decodeStep r) as [[res|r']|] eqn:Hstep; try reflexivity.
  apply decodeStep_shrinks in Hstep.
  rewrite (IH fuel) by lia. rewrite (IH (length r)) by lia. reflexivity.
Qed.

Lemma Decode_continue (r r' : list ascii) :
  decodeStep r = Some (inr r') ->
  DecodeKittyTextSizeMarkers r = DecodeKittyTextSizeMarkers r'.
Proof.
  intros Hstep. unfold DecodeKittyTextSizeMarkers. cbn [decodeLoop].
  rewrite Hstep. apply decodeLoop_fuel, decodeStep_shrinks, Hstep.
Qed.

Lemma Decode_break (r res : list ascii) :
  decodeStep r = Some (inl res) -> DecodeKittyTextSizeMarkers r = Returns res.
Proof.
  intros Hstep. unfold DecodeKittyTextSizeMarkers. cbn [decodeLoop].
  rewrite Hstep. reflexivity.
Qed.

(** The loop of [DecodeKittyTextSizeMarkers] terminates on every text. *)
Lemma DecodeKittyTextSizeMarkers_terminates (text : list ascii) :
  DecodeKittyTextSizeMarkers text <> OutOfFuel.
Proof.
  remember (length text) as n eqn:Hn. revert text Hn.
  induction n as [n IH] using lt_wf_ind. intros text ->.
  destruct (decodeStep text) as [[res|r']|] eqn:Hstep.
  - rewrite (Decode_break _ _ Hstep). discriminate.
  - rewrite (Decode_continue _ _ Hstep).
    apply (IH (length r')); [apply decodeStep_shrinks, Hstep | reflexivity].
  - unfold DecodeKittyTextSizeMarkers. cbn [decodeLoop]. rewrite Hstep.
    discriminate.
Qed.

(** *** The sentinels *)

(** The opening sentinel does not overlap itself: its last byte, the
    colon, occurs nowhere else in it. *)
Lemma markerPrefix_no_overlap (u t : list ascii) :
  u <> [] -> length u < length markerPrefix ->
  HasPrefix (u ++ markerPrefix ++ t) markerPrefix = false.
Proof.
  intros Hne Hlen. destruct u as [|c0 u]; [congruence|]. clear Hne.
  change (length markerPrefix) with 16 in Hlen.
  do 15 (destruct u as [|? u];
         [cbn; rewrite ?andb_false_r; reflexivity|]).
  simpl in Hlen. lia.
Qed.

Lemma Index_markerPrefix (a rest t : list ascii) :
  Index (a ++ rest) markerPrefix = None ->
  Index (a ++ markerPrefix ++ t) markerPrefix = Some (length a).
Proof.
  intros Hnone. apply Index_app_first. intros j Hj.
  destruct (Nat.lt_ge_cases (length (drop j a)) (length markerPrefix)) as [Hs|Hl].
  - apply markerPrefix_no_overlap; [|exact Hs].
    intros Hnil. apply (f_equal length) in Hnil.
    rewrite length_drop in Hnil. simpl in Hnil. lia.
  - rewrite HasPrefix_app_long by exact Hl.
    pose proof (Index_None _ _ Hnone j) as Hj'.
    rewrite drop_app_le in Hj' by lia.
    rewrite HasPrefix_app_long in Hj' by exact Hl. exact Hj'.
Qed.

(** In a marker built from an encoding, the first closing sentinel is the
    marker's own: the encoding holds neither a colon nor an underscore. *)
Lemma Index_markerSuffix (text b : list ascii) :
  Index (markerPrefix ++ base64Encode text ++ markerSuffix ++ b) markerSuffix
  = Some (length markerPrefix + length (base64Encode text)).
Proof.
  unfold base64Encode, Base64.EncodeToString.
  pose proof (Base64Facts.Encode_alphabetic text) as Halpha.
  pose proof (Base64Facts.Encode_shape text) as Hshape.
  set (E := Base64.Encode text) in *.
  apply Index_intro.
  - rewrite !length_app. lia.
  - rewrite app_assoc, <- length_app, drop_app_length. apply HasPrefix_app.
  - intros j Hj. change (length markerPrefix) with 16 in Hj.
    destruct (Nat.lt_ge_cases j 15) as [Hlt|Hge].
    + do 15 (destruct j as [|j]; [reflexivity|]). lia.
    + destruct (Nat.eq_dec j 15) as [->|Hne].
      * destruct Hshape as [-> | (e0 & e1 & e2 & e3 & rest & HE)];
          [reflexivity|].
        rewrite HE in *.
        assert (He3 : byte_eqb "_"%char e3 = false).
        { inversion Halpha as [|? ? _ H1]; subst.
          inversion H1 as [|? ? _ H2]; subst.
          inversion H2 as [|? ? _ H3]; subst.
          inversion H3 as [|? ? H4 _]; subst.
          apply (Base64Facts.alphabetic_not_sentinel e3 H4). }
        cbn [HasPrefix app drop markerPrefix markerSuffix lit list_ascii_of_string].
        rewrite He3. cbn [andb]. rewrite !andb_false_r. reflexivity.
      * assert (Hk : j - 16 < length E) by lia.
        destruct (lookup_lt_is_Some_2 E (j - 16) Hk) as [e He].
        replace j with (length markerPrefix + (j - 16))
          by (change (length markerPrefix) with 16; lia).
        rewrite <- drop_drop, drop_app_length.
        rewrite drop_app_le by lia.
        rewrite (drop_S E e (j - 16) He).
        assert (Hcolon : byte_eqb ":"%char e = false).
        { rewrite Forall_lookup in Halpha.
          apply (Base64Facts.alphabetic_not_sentinel e (Halpha _ _ He)). }
        cbn [HasPrefix app markerSuffix lit list_ascii_of_string].
        rewrite Hcolon. reflexivity.
Qed.

(** ** The marker round trip *)

(** One round of the loop turns an embedded marker back into its text. *)
Lemma decodeStep_kittyMarker (a text b : list ascii) :
  Index (a ++ text ++ b) markerPrefix = None ->
  decodeStep (a ++ kittyMarker text ++ b) = Some (inr (a ++ text ++ b)).
Proof.
  intros Hnone. unfold kittyMarker. rewrite <- !app_assoc.
  rewrite decodeStep_marker.
  - unfold base64Decode, base64Encode.
    rewrite Base64Facts.DecodeString_EncodeToString. reflexivity.
  - apply (Index_markerPrefix a (text ++ b)), Hnone.
  - apply Index_markerSuffix.
Qed.

(** C2, as the code has it: when the opening sentinel does not occur in
    [a ++ text ++ b], decoding [a], the wrapped marker of [text] and [b]
    recovers [a ++ text ++ b], for every [text], colons, semicolons and
    control bytes included. *)
Theorem DecodeKittyTextSizeMarkers_round_trip (a text b : list ascii) :
  Index (a ++ text ++ b) markerPrefix = None ->
  DecodeKittyTextSizeMarkers (a ++ kittyMarker text ++ b)
  = Returns (a ++ text ++ b).
Proof.
  intros Hnone.
  rewrite (Decode_continue _ _ (decodeStep_kittyMarker a text b Hnone)).
  apply Decode_break, decodeStep_no_marker, Hnone.
Qed.

Lemma DecodeKittyTextSizeMarkers_round_trip_witness :
  DecodeKittyTextSizeMarkers
    (lit "# " ++ kittyMarker (lit "a:b;c" ++ ["007"%char]) ++ lit " end")
  = Returns (lit "# " ++ (lit "a:b;c" ++ ["007"%char]) ++ lit " end").
Proof.
  apply (DecodeKittyTextSizeMarkers_round_trip (lit "# ")
           (lit "a:b;c" ++ ["007"%char]) (lit " end")).
  reflexivity.
Defined.

(** C2 as stated fails for surrounding text that holds a sentinel: with
    [a] the opening sentinel itself, the pass pairs it with the marker's
    closing sentinel, fails to decode what lies between, and drops all of
    it. *)
Lemma round_trip_breaks_on_sentinel_in_prefix :
  DecodeKittyTextSizeMarkers (lit "KITTY_TEXT_SIZE:" ++ kittyMarker (lit "x") ++ [])
  = Returns []
  /\ DecodeKittyTextSizeMarkers (lit "KITTY_TEXT_SIZE:" ++ kittyMarker (lit "x") ++ [])
     <> Returns (lit "KITTY_TEXT_SIZE:" ++ lit "x" ++ []).
Proof. split; [vm_compute; reflexivity | vm_compute; discriminate]. Qed.

(** ** Decode failures *)




(** A closing sentinel that shares its colon with the opening sentinel
    makes the slice of the content run backwards, which panics. *)
Example DecodeKittyTextSizeMarkers_overlap_panics :
  DecodeKittyTextSizeMarkers (lit "KITTY_TEXT_SIZE:END_KITTY_TEXT_SIZE") = Panics.
Proof. reflexivity. Qed.

(** Why the cut is not always harmless: the text before and the text
    after a malformed marker are joined and scanned again, so the two
    halves of a sentinel pair that the marker kept apart meet.  Here they
    form the overlapping pair, and the pass panics. *)
Example malformed_marker_joins_a_panic :
  base64Decode (lit "!!") = None
  /\ DecodeKittyTextSizeMarkers
       (lit "KITTY_TEXT_" ++ markerPrefix ++ lit "!!" ++ markerSuffix
          ++ lit "SIZE:END_KITTY_TEXT_SIZE")
     = Panics.
Proof. split; vm_compute; reflexivity. Qed.

(** Here they form a well-formed marker, which is decoded in the next
    round: the surrounding text is replaced, not preserved. *)
Example malformed_marker_joins_a_marker :
  DecodeKittyTextSizeMarkers
    (lit "KITTY_TEXT_" ++ markerPrefix ++ lit "!!" ++ markerSuffix
       ++ lit "SIZE:eA==:END_KITTY_TEXT_SIZE")
  = Returns (lit "x").
Proof. vm_compute. reflexivity. Qed.

(** ** More on the style cascade *)

Lemma override_idem {A : Type} (p c : option A) :
  override (override p c) c = override p c.
Proof. destruct c; reflexivity. Qed.

Lemma override_assoc {A : Type} (a b c : option A) :
  override (override a b) c = override a (override b c).
Proof. destruct c, b; reflexivity. Qed.

Lemma frame_idem (t : bool) (p c : bytes) : frame t (frame t p c) c = frame t p c.
Proof. destruct t, c; reflexivity. Qed.

Lemma frame_assoc (t : bool) (a b c : bytes) :
  frame t (frame t a b) c = frame t a (frame t b c).
Proof. destruct t, c, b; reflexivity. Qed.

Lemma cascadeFormat_idem (c : bytes) : cascadeFormat (cascadeFormat c) = cascadeFormat c.
Proof. destruct c; reflexivity. Qed.

(** X1: cascading the same child a second time changes nothing, for every
    attribute and either [toBlock]. *)
Theorem cascadeStylePrimitive_idempotent (parent child : StylePrimitive)
    (toBlock : bool) :
  cascadeStylePrimitive (cascadeStylePrimitive parent child toBlock) child toBlock
  = cascadeStylePrimitive parent child toBlock.
Proof.
  unfold cascadeStylePrimitive. cbn -[override frame cascadeFormat].
  rewrite !override_idem, !frame_idem, cascadeFormat_id. reflexivity.
Qed.

(** X2: the cascade is associative: merging [a] with [b] and the result
    with [c] gives the same style as merging [a] with the merge of [b] and
    [c]. *)
Theorem cascadeStylePrimitive_assoc (a b c : StylePrimitive) (toBlock : bool) :
  cascadeStylePrimitive (cascadeStylePrimitive a b toBlock) c toBlock
  = cascadeStylePrimitive a (cascadeStylePrimitive b c toBlock) toBlock.
Proof.
  unfold cascadeStylePrimitive. cbn -[override frame cascadeFormat].
  rewrite !override_assoc, !frame_assoc, !cascadeFormat_id. reflexivity.
Qed.

(** X3: the framing strings (block prefix, block suffix, prefix, suffix)
    are the child's own under [toBlock = false], whatever the parent has;
    under [toBlock = true] an empty child string takes the parent's.  The
    prefix colour is the child's in both cases and is never inherited. *)
Theorem cascadeStylePrimitive_framing (parent child : StylePrimitive) :
  let inl_ := cascadeStylePrimitive parent child false in
  let blk := cascadeStylePrimitive parent child true in
  (BlockPrefix inl_ = BlockPrefix child /\ BlockSuffix inl_ = BlockSuffix child
   /\ Prefix inl_ = Prefix child /\ Suffix inl_ = Suffix child)
  /\ (BlockPrefix blk = orElse (BlockPrefix child) (BlockPrefix parent)
      /\ BlockSuffix blk = orElse (BlockSuffix child) (BlockSuffix parent)
      /\ Prefix blk = orElse (Prefix child) (Prefix parent)
      /\ Suffix blk = orElse (Suffix child) (Suffix parent))
  /\ PrefixColor inl_ = PrefixColor child
  /\ PrefixColor blk = PrefixColor child.
Proof.
  cbv zeta. unfold cascadeStylePrimitive, frame, orElse. cbn.
  destruct (BlockPrefix child), (BlockSuffix child), (Prefix child),
    (Suffix child); repeat split.
Qed.

Lemma last_snoc_omap {A B : Type} (f : A -> option B) (l : list A) (x : A) :
  last (omap f (l ++ [x])) = override (last (omap f l)) (f x).
Proof.
  rewrite omap_app. simpl. destruct (f x) as [v|]; simpl.
  - rewrite last_snoc. reflexivity.
  - rewrite app_nil_r. reflexivity.
Qed.

(** A fold of the cascade leaves every parent-unless-overridden attribute
    at the value set last. *)
Lemma cascadeStylePrimitives_lastSet {A : Type}
    (f : StylePrimitive -> option A) :
  (forall p c, f (cascadeStylePrimitive p c true) = override (f p) (f c)) ->
  f zeroStylePrimitive = None ->
  forall l, f (cascadeStylePrimitives l) = lastSet f l.
Proof.
  intros Hstep Hzero l. unfold cascadeStylePrimitives, lastSet.
  induction l as [|x l IH] using rev_ind.
  - exact Hzero.
  - rewrite fold_left_app. cbn [fold_left].
    rewrite Hstep, IH, last_snoc_omap. reflexivity.
Qed.

(** X4: [cascadeStylePrimitives] resolves each optional attribute to the
    value of the last style in the list that sets it, and to unset when
    none does; shown for the colours, a decoration, a case transform and
    two scaling parameters. *)
Theorem cascadeStylePrimitives_last_set_wins (l : list StylePrimitive) :
  Color (cascadeStylePrimitives l) = lastSet Color l
  /\ BackgroundColor (cascadeStylePrimitives l) = lastSet BackgroundColor l
  /\ Bold (cascadeStylePrimitives l) = lastSet Bold l
  /\ Upper (cascadeStylePrimitives l) = lastSet Upper l
  /\ KittyScale (cascadeStylePrimitives l) = lastSet KittyScale l
  /\ KittyVAlign (cascadeStylePrimitives l) = lastSet KittyVAlign l.
Proof.
  repeat split; apply cascadeStylePrimitives_lastSet; reflexivity.
Qed.

Lemma cascadeStyles_snoc (l : list StyleBlock) (x : StyleBlock) :
  cascadeStyles (l ++ [x]) = cascadeStyle (cascadeStyles l) x true.
Proof. unfold cascadeStyles. rewrite fold_left_app. reflexivity. Qed.

(** X5: [cascadeStyles] never yields a margin: under [toBlock = true] the
    margin is always the accumulated parent's, which starts unset, so the
    margins of the styles in the list are all dropped.  The indent, which
    has a child override, is the one set last. *)
Theorem cascadeStyles_drops_margin (l : list StyleBlock) :
  Margin (cascadeStyles l) = None
  /\ Indent (cascadeStyles l) = last (omap Indent l).
Proof.
  induction l as [|x l [IHm IHi]] using rev_ind.
  - split; reflexivity.
  - rewrite cascadeStyles_snoc. cbn [cascadeStyle Margin Indent].
    split; [exact IHm|]. rewrite IHi, last_snoc_omap. reflexivity.
Qed.

(** ** More on base64 *)

Module Base64More.
Import Base64 Base64Facts.

Lemma Encode_length (s : list ascii) :
  length (Encode s) = 4 * ((length s + 2) / 3).
Proof.
  induction s as [|a|a b|a b c rest IH] using bytes_ind3; cbn [Encode length];
    try reflexivity.
  rewrite IH.
  replace (S (S (S (length rest))) + 2) with (length rest + 2 + 1 * 3) by lia.
  rewrite Nat.div_add by lia. lia.
Qed.

Lemma isNewline_decodeMap (c : ascii) :
  isNewline c = true -> negb (decodeMap c =? 255)%Z = false.
Proof.
  unfold isNewline. rewrite orb_true_iff, !byte_eqb_eq.
  intros [-> | ->]; reflexivity.
Qed.

Lemma skipNewlines_significant (s : list ascii) :
  skipNewlines (significant s) = significant (skipNewlines s).
Proof.
  induction s as [|c s IH]; [reflexivity|].
  cbn [significant List.filter skipNewlines].
  destruct (isNewline c) eqn:Hc; cbn [negb].
  - exact IH.
  - cbn [skipNewlines significant List.filter]. rewrite Hc. reflexivity.
Qed.

Lemma skipNewlines_head (s : list ascii) (c : ascii) (rest : list ascii) :
  skipNewlines s = c :: rest -> isNewline c = false.
Proof.
  induction s as [|d s IH]; [discriminate|]. cbn [skipNewlines].
  destruct (isNewline d) eqn:Hd; [exact IH|]. intros [= <- _]. exact Hd.
Qed.

Lemma skip_significant (s : list ascii) :
  skipNewlines (significant s)
  = match skipNewlines s with
    | [] => []
    | c :: rest => c :: significant rest
    end.
Proof.
  rewrite skipNewlines_significant.
  destruct (skipNewlines s) as [|c rest] eqn:Hs; [reflexivity|].
  cbn [significant List.filter].
  rewrite (skipNewlines_head s c rest Hs). reflexivity.
Qed.

Lemma Decode_significant (src : list ascii) :
  forall q, Decode (significant src) q = Decode src q.
Proof.
  induction src as [|c rest IH]; intros q; [reflexivity|].
  cbn [significant List.filter].
  destruct (isNewline c) eqn:Hc; cbn [negb].
  - cbn [Decode]. rewrite (isNewline_decodeMap c Hc), Hc. apply IH.
  - fold (significant rest). cbn [Decode]. rewrite Hc.
    destruct (negb (decodeMap c =? 255)%Z).
    + destruct q; rewrite IH; reflexivity.
    + destruct (negb (byte_eqb c padChar)); [reflexivity|].
      destruct q as [|d0|d0 d1|d0 d1 d2]; try reflexivity.
      * rewrite skip_significant.
        destruct (skipNewlines rest) as [|c2 rest2]; [reflexivity|].
        destruct (negb (byte_eqb c2 padChar)); [reflexivity|].
        rewrite skip_significant.
        destruct (skipNewlines rest2); reflexivity.
      * rewrite skip_significant.
        destruct (skipNewlines rest); reflexivity.
Qed.

Lemma skipNewlines_fixed (s : list ascii) :
  skipNewlines (significant s) = significant s.
Proof.
  induction s as [|c s IH]; [reflexivity|].
  cbn [significant List.filter].
  destruct (isNewline c) eqn:Hc; cbn [negb]; [exact IH|].
  cbn [skipNewlines]. rewrite Hc. reflexivity.
Qed.

(** A successful decoding has read whole quanta: four significant bytes
    for at most three decoded ones. *)
Lemma Decode_quanta (src : list ascii) :
  forall (q : quantum) (d : list ascii),
    Decode src q = Some d ->
    4 * length d <= 3 * (length (significant src) + held q)
    /\ (length (significant src) + held q) mod 4 = 0.
Proof.
  induction src as [|c rest IH]; intros q d.
  - destruct q; simpl; intros [= <-] || discriminate. simpl. split; [lia | reflexivity].
  - cbn [Decode]. cbn [significant List.filter]. fold (significant rest).
    destruct (isNewline c) eqn:Hc.
    + rewrite (isNewline_decodeMap c Hc). cbn [negb]. apply IH.
    + cbn [negb length].
      destruct (negb (decodeMap c =? 255)%Z).
      * destruct q as [|d0|d0 d1|d0 d1 d2].
        -- intros Hd. apply IH in Hd. cbn [held] in *.
           replace (S (length (significant rest)) + 0)
             with (length (significant rest) + 1) by lia. exact Hd.
        -- intros Hd. apply IH in Hd. cbn [held] in *.
           replace (S (length (significant rest)) + 1)
             with (length (significant rest) + 2) by lia. exact Hd.
        -- intros Hd. apply IH in Hd. cbn [held] in *.
           replace (S (length (significant rest)) + 2)
             with (length (significant rest) + 3) by lia. exact Hd.
        -- destruct (Decode rest Q0) as [tl|] eqn:Htl; [|discriminate].
           cbn [fmap option_fmap option_map]. intros [= <-].
           apply IH in Htl. cbn [held length] in *.
           destruct Htl as [Hlen Hmod]. rewrite Nat.add_0_r in Hmod.
           split; [lia|].
           replace (S (length (significant rest)) + 3)
             with (length (significant rest) + 1 * 4) by lia.
           rewrite Nat.Div0.mod_add. exact Hmod.
      * destruct (negb (byte_eqb c padChar)); [discriminate|].
        destruct q as [|d0|d0 d1|d0 d1 d2]; try discriminate.
        -- pose proof (skip_significant rest) as Hs1.
           destruct (skipNewlines rest) as [|c2 rest2] eqn:Hr; [discriminate|].
           destruct (negb (byte_eqb c2 padChar)); [discriminate|].
           pose proof (skip_significant rest2) as Hs2.
           destruct (skipNewlines rest2) eqn:Hr2; [|discriminate].
           intros [= <-].
           assert (Hsig : significant rest = [c2]).
           { rewrite <- (skipNewlines_fixed rest). rewrite Hs1.
             rewrite <- (skipNewlines_fixed rest2), Hs2. reflexivity. }
           rewrite Hsig. cbn. split; [lia | reflexivity].
        -- pose proof (skip_significant rest) as Hs1.
           destruct (skipNewlines rest) eqn:Hr; [|discriminate].
           intros [= <-].
           assert (Hsig : significant rest = []).
           { rewrite <- (skipNewlines_fixed rest). exact Hs1. }
           rewrite Hsig. cbn. split; [lia | reflexivity].
Qed.

End Base64More.

(** X6: decoding inverts encoding: [base64Decode (base64Encode s)] returns
    [s] for every byte string [s]. *)
Theorem base64_round_trip (s : bytes) : base64Decode (base64Encode s) = Some s.
Proof. apply Base64Facts.DecodeString_EncodeToString. Qed.

(** X7: an encoding is four bytes for every three bytes of input, the last
    group rounded up, and consists of alphabet and padding characters
    only; in particular it holds neither a colon nor an underscore, the
    bytes that make up the sentinels. *)
Theorem base64Encode_shape (s : bytes) :
  length (base64Encode s) = 4 * ((length s + 2) / 3)
  /\ Forall (fun c => Base64.alphabetic c = true
                      /\ byte_eqb ":"%char c = false
                      /\ byte_eqb "_"%char c = false)
       (base64Encode s).
Proof.
  split; [apply Base64More.Encode_length|].
  unfold base64Encode, Base64.EncodeToString.
  eapply Forall_impl; [apply Base64Facts.Encode_alphabetic|].
  intros c Hc. split; [exact Hc|].
  apply Base64Facts.alphabetic_not_sentinel, Hc.
Qed.

(** X8: the decoder skips carriage returns and line feeds wherever they
    stand: a text decodes as the text without them does. *)
Theorem base64Decode_ignores_line_breaks (s : bytes) :
  base64Decode s = base64Decode (significant s).
Proof.
  unfold base64Decode, Base64.DecodeString.
  symmetry. apply Base64More.Decode_significant.
Qed.

(** X9: padding is mandatory: a text that decodes has, line breaks aside,
    a length that is a multiple of four, and yields at most three bytes
    for every four of them. *)
Theorem base64Decode_whole_quanta (s d : bytes) :
  base64Decode s = Some d ->
  length (significant s) mod 4 = 0
  /\ 4 * length d <= 3 * length (significant s).
Proof.
  intros Hd. apply Base64More.Decode_quanta in Hd.
  cbn [Base64.held] in Hd. rewrite Nat.add_0_r in Hd. tauto.
Qed.

Lemma base64Decode_whole_quanta_witness :
  length (significant (lit "aGVs" ++ ["010"%char] ++ lit "bA==")) mod 4 = 0
  /\ 4 * length (lit "hell")
     <= 3 * length (significant (lit "aGVs" ++ ["010"%char] ++ lit "bA==")).
Proof.
  apply (base64Decode_whole_quanta (lit "aGVs" ++ ["010"%char] ++ lit "bA==")
           (lit "hell")).
  reflexivity.
Defined.

(** ** More on the marker pass *)

Lemma slice_from_Some (s : list ascii) (lo : nat) :
  lo <= length s -> slice_from s lo = Some (drop lo s).
Proof.
  intros Hle. unfold slice_from. rewrite slice_Some by lia.
  rewrite take_ge by (rewrite length_drop; lia). reflexivity.
Qed.

Lemma decodeStep_inl (text res : list ascii) :
  decodeStep text = Some (inl res) ->
  res = text
  /\ (Index text markerPrefix = None
      \/ exists i, Index text markerPrefix = Some i
                   /\ Index (drop i text) markerSuffix = None).
Proof.
  unfold decodeStep.
  destruct (Index text markerPrefix) as [i|] eqn:Hi; cbv beta iota;
    [|intros [= <-]; split; [reflexivity | left; reflexivity]].
  destruct (Index_Some _ _ _ Hi) as (Hle & _ & _).
  rewrite slice_from_Some by exact Hle. cbn [mbind option_bind].
  destruct (Index (drop i text) markerSuffix) as [e|] eqn:He.
  - destruct (slice text _ _); cbn [mbind option_bind]; [|discriminate].
    destruct (slice_to text i); cbn [mbind option_bind]; [|discriminate].
    destruct (slice_from text _); cbn [mbind option_bind]; [|discriminate].
    destruct (base64Decode _); discriminate.
  - intros [= <-]. split; [reflexivity|]. right. exists i.
    split; [reflexivity | exact He].
Qed.

Lemma decodeLoop_length (fuel : nat) :
  forall text r, decodeLoop fuel text = Returns r -> length r <= length text.
Proof.
  induction fuel as [|fuel IH]; intros text r; cbn [decodeLoop]; [discriminate|].
  destruct (decodeStep text) as [[res|r']|] eqn:Hstep; try discriminate.
  - apply decodeStep_inl in Hstep as [-> _]. intros [= <-]. lia.
  - intros Hr. apply IH in Hr. apply decodeStep_shrinks in Hstep. lia.
Qed.

(** X10: the pass terminates on every text: it either panics or returns a
    text that is no longer than its input.  Each round of the loop removes
    a whole marker and puts back at most its decoded content. *)
Theorem DecodeKittyTextSizeMarkers_total (text : bytes) :
  DecodeKittyTextSizeMarkers text = Panics
  \/ exists r, DecodeKittyTextSizeMarkers text = Returns r
               /\ length r <= length text.
Proof.
  pose proof (DecodeKittyTextSizeMarkers_terminates text) as Hfuel.
  destruct (DecodeKittyTextSizeMarkers text) as [r| |] eqn:Hd.
  - right. exists r. split; [reflexivity|].
    apply (decodeLoop_length _ _ _ Hd).
  - left. reflexivity.
  - congruence.
Qed.


(** X12: the leftmost marker is replaced by its decoded text and the pass
    then scans the result again from the start, so a marker inside the
    decoded text is expanded as well. *)
Theorem DecodeKittyTextSizeMarkers_splice (a text b : bytes) :
  Index a markerPrefix = None ->
  DecodeKittyTextSizeMarkers (a ++ kittyMarker text ++ b)
  = DecodeKittyTextSizeMarkers (a ++ text ++ b).
Proof.
  intros Hnone. apply Decode_continue.
  unfold kittyMarker. rewrite <- !app_assoc.
  rewrite decodeStep_marker.
  - unfold base64Decode, base64Encode.
    rewrite Base64Facts.DecodeString_EncodeToString. reflexivity.
  - apply (Index_markerPrefix a []). rewrite app_nil_r. exact Hnone.
  - apply Index_markerSuffix.
Qed.

Lemma DecodeKittyTextSizeMarkers_splice_witness :
  DecodeKittyTextSizeMarkers
    (lit "> " ++ kittyMarker (lit "[" ++ kittyMarker (lit "in") ++ lit "]")
       ++ lit " <")
  = DecodeKittyTextSizeMarkers
      (lit "> " ++ (lit "[" ++ kittyMarker (lit "in") ++ lit "]") ++ lit " <").
Proof.
  apply (DecodeKittyTextSizeMarkers_splice (lit "> ")
           (lit "[" ++ kittyMarker (lit "in") ++ lit "]") (lit " <")).
  reflexivity.
Defined.

(** X13: when the leftmost opening sentinel is directly followed by
    [END_KITTY_TEXT_SIZE], its colon doubles as the start of the closing
    sentinel, the content slice runs from 16 to 15 bytes past the start,
    and the pass panics, whatever surrounds the two. *)
Theorem DecodeKittyTextSizeMarkers_overlap (a b : bytes) :
  Index a markerPrefix = None ->
  DecodeKittyTextSizeMarkers
    (a ++ markerPrefix ++ lit "END_KITTY_TEXT_SIZE" ++ b) = Panics.
Proof.
  intros Hnone. unfold DecodeKittyTextSizeMarkers. cbn [decodeLoop].
  unfold decodeStep.
  rewrite (Index_markerPrefix a [] (lit "END_KITTY_TEXT_SIZE" ++ b))
    by (rewrite app_nil_r; exact Hnone).
  rewrite slice_from_app. cbn [mbind option_bind].
  assert (Hi : Index (markerPrefix ++ lit "END_KITTY_TEXT_SIZE" ++ b) markerSuffix
               = Some 15).
  { apply Index_intro.
    - rewrite !length_app. change (length markerPrefix) with 16. lia.
    - vm_compute. reflexivity.
    - intros j Hj. do 15 (destruct j as [|j]; [reflexivity|]). lia. }
  rewrite Hi. unfold slice.
  change (length markerPrefix) with 16.
  destruct (Nat.leb_spec (length a + 16) (15 + length a)); [lia|].
  reflexivity.
Qed.

Lemma DecodeKittyTextSizeMarkers_overlap_witness :
  DecodeKittyTextSizeMarkers
    (lit "# Title " ++ markerPrefix ++ lit "END_KITTY_TEXT_SIZE" ++ lit " tail")
  = Panics.
Proof.
  apply (DecodeKittyTextSizeMarkers_overlap (lit "# Title ") (lit " tail")).
  reflexivity.
Defined.

(** ** Stripping SGR sequences *)

Lemma sgrMatch_no_escape (c : ascii) (s : list ascii) :
  byte_eqb c termenv.ESC = false -> sgrMatch (c :: s) = None.
Proof.
  intros Hc. unfold sgrMatch. destruct s as [|b s]; [reflexivity|].
  rewrite Hc. reflexivity.
Qed.

Lemma stripFrom_head (c : ascii) (s : list ascii) :
  stripFrom 0 (c :: s)
  = match sgrMatch (c :: s) with
    | Some n => stripFrom (n - 1) s
    | None => c :: stripFrom 0 s
    end.
Proof. reflexivity. Qed.

Lemma stripFrom_no_escape (s rest : list ascii) :
  noEscape s = true -> stripFrom 0 (s ++ rest) = s ++ stripFrom 0 rest.
Proof.
  induction s as [|c s IH]; [reflexivity|].
  cbn [noEscape forallb]. rewrite andb_true_iff, negb_true_iff.
  intros [Hc Hs]. cbn [app]. rewrite stripFrom_head.
  rewrite (sgrMatch_no_escape c (s ++ rest) Hc).
  rewrite (IH Hs). reflexivity.
Qed.

Lemma stripFrom_skip (a rest : list ascii) :
  stripFrom (length a) (a ++ rest) = stripFrom 0 rest.
Proof. induction a as [|c a IH]; [reflexivity|]. exact IH. Qed.

Lemma sgrTail_params (seq rest : list ascii) (n : nat) :
  isParams seq = true ->
  sgrTail (seq ++ "m"%char :: rest) n = Some (S (n + length seq)).
Proof.
  revert n. induction seq as [|c seq IH]; intros n.
  - intros _. cbn. f_equal. lia.
  - cbn [isParams forallb]. rewrite andb_true_iff. intros [Hc Hs].
    cbn [app sgrTail]. rewrite Hc. rewrite (IH (S n) Hs).
    cbn [length]. f_equal. lia.
Qed.

(** An SGR sequence at the head of a text is removed whole. *)
Lemma stripFrom_sgr (seq rest : list ascii) :
  isParams seq = true ->
  stripFrom 0 (termenv.CSI ++ seq ++ "m"%char :: rest) = stripFrom 0 rest.
Proof.
  intros Hs. unfold termenv.CSI. cbn [lit list_ascii_of_string app].
  rewrite stripFrom_head. unfold sgrMatch.
  change (byte_eqb termenv.ESC termenv.ESC && byte_eqb "[" "[") with true.
  cbv beta iota. rewrite (sgrTail_params seq rest 2 Hs).
  assert (Hshape : "["%char :: seq ++ "m"%char :: rest
                   = ("["%char :: seq ++ ["m"%char]) ++ rest).
  { cbn [app]. rewrite <- app_assoc. reflexivity. }
  rewrite Hshape.
  replace (S (2 + length seq) - 1) with (length ("["%char :: seq ++ ["m"%char]))
    by (cbn [length]; rewrite length_app; cbn [length]; lia).
  apply stripFrom_skip.
Qed.

Lemma Join_cons (p q : list ascii) (rest : list (list ascii)) (sep : list ascii) :
  Join (p :: q :: rest) sep = p ++ sep ++ Join (q :: rest) sep.
Proof. reflexivity. Qed.

Lemma isParams_Join (styles : list (list ascii)) :
  Forall (fun s => isParams s = true) styles ->
  isParams (Join styles (lit ";")) = true.
Proof.
  induction styles as [|s styles IH]; [reflexivity|].
  intros Hall. inversion Hall as [|? ? Hs Hrest]; subst.
  destruct styles as [|s2 styles]; [exact Hs|].
  rewrite Join_cons. unfold isParams in *. rewrite !forallb_app.
  rewrite Hs. rewrite (IH Hrest). reflexivity.
Qed.

(** Stripping undoes [Styled]. *)
Lemma StripANSI_Styled (t : termenv.Style) :
  noEscape (termenv.text t) = true ->
  Forall (fun s => isParams s = true) (termenv.styles t) ->
  StripANSI (termenv.Styled t) = termenv.text t.
Proof.
  intros Ht Hall. unfold StripANSI, termenv.Styled.
  pose proof (isParams_Join _ Hall) as Hseq.
  assert (Hplain : stripFrom 0 (termenv.text t) = termenv.text t).
  { rewrite <- (app_nil_r (termenv.text t)) at 1.
    rewrite stripFrom_no_escape by exact Ht. apply app_nil_r. }
  destruct (termenv.styles t) as [|s0 styles]; [exact Hplain|].
  destruct (Join (s0 :: styles) (lit ";")) as [|c seq] eqn:Hj; [exact Hplain|].
  replace (termenv.CSI ++ (c :: seq) ++ lit "m" ++ termenv.text t
             ++ (termenv.CSI ++ termenv.ResetSeq) ++ lit "m")
    with (termenv.CSI ++ (c :: seq) ++ "m"%char
            :: (termenv.text t ++ termenv.CSI ++ lit "0" ++ "m"%char :: []))
    by (unfold termenv.ResetSeq; cbn [lit list_ascii_of_string app];
        rewrite <- !app_assoc; reflexivity).
  rewrite stripFrom_sgr by exact Hseq.
  rewrite stripFrom_no_escape by exact Ht.
  rewrite (stripFrom_sgr (lit "0") []) by reflexivity.
  apply app_nil_r.
Qed.

Lemma when_styles (ok : list ascii -> bool) (cond : bool) (seq : list ascii)
    (out : termenv.Style) :
  ok seq = true ->
  Forall (fun s => ok s = true) (termenv.styles out) ->
  Forall (fun s => ok s = true)
    (termenv.styles (when cond (fun t => termenv.add t seq) out)).
Proof.
  intros Hseq Hout. destruct cond; [|exact Hout].
  cbn. apply Forall_app. split; [exact Hout | repeat constructor; exact Hseq].
Qed.

Lemma when_text (cond : bool) (seq : list ascii) (out : termenv.Style) :
  termenv.text (when cond (fun t => termenv.add t seq) out) = termenv.text out.
Proof. destruct cond; reflexivity. Qed.

Lemma decorateFaint_text (p : termenv.Profile) (rules : StylePrimitive)
    (out : termenv.Style) :
  termenv.text (decorateFaint p rules out) = termenv.text out.
Proof.
  unfold decorateFaint, decorate. rewrite !when_text.
  destruct (BackgroundColor rules) as [b|], (Color rules) as [c|];
    try destruct (termenv.Sequence p b true);
    try destruct (termenv.Sequence p c false); reflexivity.
Qed.

(** The codes that [decorate] and [decorateFaint] attach pass every test
    that the colour sequences and the fixed codes pass. *)
Lemma decorate_styles (ok : list ascii -> bool) (p : termenv.Profile)
    (rules : StylePrimitive) (out : termenv.Style) :
  forallb ok [termenv.UnderlineSeq; termenv.BoldSeq; termenv.ItalicSeq;
              termenv.CrossOutSeq; termenv.OverlineSeq; termenv.ReverseSeq;
              termenv.BlinkSeq; termenv.FaintSeq] = true ->
  optAll ok (foregroundSeq p rules) = true ->
  optAll ok (backgroundSeq p rules) = true ->
  Forall (fun s => ok s = true) (termenv.styles out) ->
  Forall (fun s => ok s = true) (termenv.styles (decorate p rules out)).
Proof.
  unfold foregroundSeq, backgroundSeq. intros Hfix Hfg Hbg Hout.
  cbn [forallb] in Hfix. rewrite !andb_true_iff in Hfix.
  destruct Hfix as (H4 & H1 & H3 & H9 & H53 & H7 & H5 & H2 & _).
  unfold decorate.
  repeat (apply when_styles; [assumption|]).
  assert (Hfgs : Forall (fun s => ok s = true)
            (termenv.styles
               match Color rules with
               | Some c => termenv.Foreground out (termenv.Sequence p c false)
               | None => out
               end)).
  { destruct (Color rules) as [c|]; cbn [mbind option_bind] in Hfg; [|exact Hout].
    destruct (termenv.Sequence p c false) as [sc|]; cbn in Hfg |- *; [|exact Hout].
    apply Forall_app. split; [exact Hout | repeat constructor; exact Hfg]. }
  destruct (BackgroundColor rules) as [b|]; cbn [mbind option_bind] in Hbg;
    [|exact Hfgs].
  destruct (termenv.Sequence p b true) as [sb|]; cbn in Hbg |- *; [|exact Hfgs].
  apply Forall_app. split; [exact Hfgs | repeat constructor; exact Hbg].
Qed.

Lemma decorateFaint_styles (ok : list ascii -> bool) (p : termenv.Profile)
    (rules : StylePrimitive) (out : termenv.Style) :
  forallb ok [termenv.UnderlineSeq; termenv.BoldSeq; termenv.ItalicSeq;
              termenv.CrossOutSeq; termenv.OverlineSeq; termenv.ReverseSeq;
              termenv.BlinkSeq; termenv.FaintSeq] = true ->
  optAll ok (foregroundSeq p rules) = true ->
  optAll ok (backgroundSeq p rules) = true ->
  Forall (fun s => ok s = true) (termenv.styles out) ->
  Forall (fun s => ok s = true) (termenv.styles (decorateFaint p rules out)).
Proof.
  intros Hfix Hfg Hbg Hout. unfold decorateFaint.
  apply when_styles.
  - cbn [forallb] in Hfix. rewrite !andb_true_iff in Hfix. tauto.
  - apply decorate_styles; assumption.
Qed.

(** X14: stripping undoes the styling: for a text without escape bytes
    and colours whose sequences are SGR parameters, [StripANSI] of the
    styled text is the text. *)
Theorem StripANSI_applyANSIStyles (p : termenv.Profile)
    (rules : StylePrimitive) (s : bytes) :
  noEscape s = true ->
  paramsOrNone (foregroundSeq p rules) = true ->
  paramsOrNone (backgroundSeq p rules) = true ->
  StripANSI (applyANSIStyles p rules s) = s.
Proof.
  intros Hs Hfg Hbg. unfold applyANSIStyles.
  rewrite StripANSI_Styled.
  - apply decorateFaint_text.
  - rewrite decorateFaint_text. exact Hs.
  - apply decorateFaint_styles; [reflexivity | exact Hfg | exact Hbg | constructor].
Qed.

Lemma StripANSI_applyANSIStyles_witness :
  StripANSI
    (applyANSIStyles PaletteProfile
       (mkStylePrimitive [] [] [] None [] (Some (lit "212")) (Some (lit "57"))
          (Some true) (Some true) None None None None None (Some true) None
          None None None [] None None None None None None)
       (lit "Heading one"))
  = lit "Heading one".
Proof.
  apply (StripANSI_applyANSIStyles PaletteProfile
           (mkStylePrimitive [] [] [] None [] (Some (lit "212"))
              (Some (lit "57")) (Some true) (Some true) None None None None
              None (Some true) None None None None [] None None None None None
              None)
           (lit "Heading one")); reflexivity.
Defined.

(** ** The ANSI wrapper *)

Lemma isParam_not_escape (c : ascii) :
  isParam c = true -> byte_eqb termenv.ESC c = false.
Proof.
  intros Hc. destruct (byte_eqb termenv.ESC c) eqn:He; [|reflexivity].
  apply byte_eqb_eq in He. subst c. discriminate Hc.
Qed.

Lemma HasPrefix_head (c d : ascii) (s p : list ascii) :
  byte_eqb d c = false -> HasPrefix (c :: s) (d :: p) = false.
Proof. intros Hc. cbn [HasPrefix]. rewrite Hc. reflexivity. Qed.

(** In the styling of an empty text the first reset sequence is the one
    that closes it. *)
Lemma Index_reset (seq : list ascii) :
  isParams seq = true -> isReset seq = false ->
  Index (termenv.ESC :: "["%char :: seq ++ "m"%char :: termenv.ESC :: lit "[0m")
    (termenv.ESC :: lit "[0m")
  = Some (3 + length seq).
Proof.
  intros Hp Hr.
  assert (Hshape : termenv.ESC :: "["%char :: seq ++ "m"%char :: termenv.ESC :: lit "[0m"
                   = (termenv.ESC :: "["%char :: seq ++ ["m"%char])
                       ++ (termenv.ESC :: lit "[0m") ++ []).
  { cbn [app]. rewrite <- app_assoc. reflexivity. }
  rewrite Hshape.
  replace (3 + length seq) with (length (termenv.ESC :: "["%char :: seq ++ ["m"%char]))
    by (cbn [length]; rewrite length_app; cbn [length]; lia).
  apply Index_app_first. intros j Hj.
  cbn [length] in Hj. rewrite length_app in Hj. cbn [length] in Hj.
  destruct j as [|[|k]].
  - cbn [drop app lit list_ascii_of_string HasPrefix].
    change (byte_eqb termenv.ESC termenv.ESC) with true.
    change (byte_eqb "[" "[") with true. cbn [andb].
    destruct seq as [|c [|d seq]].
    + reflexivity.
    + cbn [isReset] in Hr. cbn [app].
      destruct (byte_eqb "0" c) eqn:Hc; [|reflexivity].
      apply byte_eqb_eq in Hc. subst c. discriminate Hr.
    + cbn [app]. cbn [isParams forallb] in Hp.
      apply andb_true_iff in Hp as [_ Hp]. apply andb_true_iff in Hp as [Hd _].
      destruct (byte_eqb "m" d) eqn:Hm; [|rewrite andb_false_r; reflexivity].
      apply byte_eqb_eq in Hm. subst d. discriminate Hd.
  - cbn [drop app]. apply HasPrefix_head. reflexivity.
  - cbn [drop].
    assert (Hk : k < length (seq ++ ["m"%char])) by (rewrite length_app; cbn [length]; lia).
    destruct (lookup_lt_is_Some_2 _ _ Hk) as [c Hc].
    rewrite (drop_S _ c k Hc). cbn [app]. apply HasPrefix_head.
    apply list_elem_of_lookup_2 in Hc. apply elem_of_app in Hc as [Hc | Hc].
    + apply isParam_not_escape.
      unfold isParams in Hp. rewrite forallb_forall in Hp.
      apply Hp, list_elem_of_In, Hc.
    + apply list_elem_of_singleton in Hc. subst c. reflexivity.
Qed.

Lemma when_styles_eq (cond : bool) (seq : list ascii) (o1 o2 : termenv.Style) :
  termenv.styles o1 = termenv.styles o2 ->
  termenv.styles (when cond (fun t => termenv.add t seq) o1)
  = termenv.styles (when cond (fun t => termenv.add t seq) o2).
Proof. intros Heq. destruct cond; cbn; rewrite ?Heq; reflexivity. Qed.

(** The codes attached do not depend on the text. *)
Lemma decorateFaint_styles_eq (p : termenv.Profile) (rules : StylePrimitive)
    (o1 o2 : termenv.Style) :
  termenv.styles o1 = termenv.styles o2 ->
  termenv.styles (decorateFaint p rules o1)
  = termenv.styles (decorateFaint p rules o2).
Proof.
  intros Heq. unfold decorateFaint, decorate.
  repeat apply when_styles_eq.
  destruct (BackgroundColor rules) as [b|], (Color rules) as [c|];
    try destruct (termenv.Sequence p b true);
    try destruct (termenv.Sequence p c false); cbn; rewrite ?Heq; reflexivity.
Qed.

Lemma isReset_Join (styles : list (list ascii)) :
  Forall (fun s => isColour s = true) styles ->
  isReset (Join styles (lit ";")) = false.
Proof.
  destruct styles as [|s [|s2 styles]]; intros Hall.
  - reflexivity.
  - inversion Hall as [|? ? Hs _]; subst. unfold isColour in Hs.
    apply andb_true_iff in Hs as [_ Hs]. apply negb_true_iff in Hs. exact Hs.
  - rewrite Join_cons. destruct s as [|c [|d s]]; [|reflexivity..].
    cbn [app lit list_ascii_of_string].
    destruct (Join (s2 :: styles) _); reflexivity.
Qed.

Lemma isColour_params (styles : list (list ascii)) :
  Forall (fun s => isColour s = true) styles ->
  Forall (fun s => isParams s = true) styles.
Proof.
  intros Hall. eapply Forall_impl; [exact Hall|].
  intros s Hs. unfold isColour in Hs.
  apply andb_true_iff in Hs as [Hs _]. exact Hs.
Qed.

(** The wrapper of a list of codes: what [Styled] puts before and after a
    text. *)
Lemma Styled_wrapper (s : list ascii) (styles : list (list ascii)) :
  Forall (fun c => isColour c = true) styles ->
  let styled := termenv.Styled (termenv.mkStyle [] styles) in
  let resetSeq := termenv.ESC :: lit "[0m" in
  let wrapper :=
    match styled with
    | [] => ([], [])
    | _ :: _ =>
        match Index styled resetSeq with
        | Some idx => (take idx styled, resetSeq)
        | None => ([], [])
        end
    end in
  termenv.Styled (termenv.mkStyle s styles) = fst wrapper ++ s ++ snd wrapper.
Proof.
  intros Hall. cbv zeta. unfold termenv.Styled. cbn [termenv.styles termenv.text].
  pose proof (isParams_Join _ (isColour_params _ Hall)) as Hp.
  pose proof (isReset_Join _ Hall) as Hr.
  destruct styles as [|s0 styles]; [cbn; rewrite app_nil_r; reflexivity|].
  destruct (Join (s0 :: styles) (lit ";")) as [|c seq] eqn:Hj;
    [cbn; rewrite app_nil_r; reflexivity|].
  assert (Hshape : termenv.CSI ++ (c :: seq) ++ lit "m" ++ []
                     ++ (termenv.CSI ++ termenv.ResetSeq) ++ lit "m"
                   = termenv.ESC :: "["%char :: (c :: seq)
                       ++ "m"%char :: termenv.ESC :: lit "[0m").
  { reflexivity. }
  rewrite Hshape. rewrite (Index_reset (c :: seq) Hp Hr).
  cbn [fst snd].
  assert (Hshape2 : termenv.ESC :: "["%char :: (c :: seq)
                      ++ "m"%char :: termenv.ESC :: lit "[0m"
                    = (termenv.ESC :: "["%char :: (c :: seq) ++ ["m"%char])
                        ++ termenv.ESC :: lit "[0m").
  { cbn [app]. rewrite <- app_assoc. reflexivity. }
  rewrite Hshape2.
  replace (3 + length (c :: seq))
    with (length (termenv.ESC :: "["%char :: (c :: seq) ++ ["m"%char]))
    by (cbn [length app]; rewrite length_app; cbn [length]; lia).
  rewrite take_app_length.
  unfold termenv.CSI, termenv.ResetSeq.
  cbn [lit list_ascii_of_string app]. rewrite <- !app_assoc. reflexivity.
Qed.

(** X15: [buildANSIWrapper] returns exactly what [applyANSIStyles] puts
    around a text: for colours whose sequences are SGR parameters other
    than the reset code, the styled text is the prefix, the text and the
    suffix. *)
Theorem buildANSIWrapper_wraps (p : termenv.Profile) (rules : StylePrimitive)
    (s : bytes) :
  colourOrNone (foregroundSeq p rules) = true ->
  colourOrNone (backgroundSeq p rules) = true ->
  applyANSIStyles p rules s
  = fst (buildANSIWrapper p rules) ++ s ++ snd (buildANSIWrapper p rules).
Proof.
  intros Hfg Hbg. unfold applyANSIStyles, buildANSIWrapper.
  assert (Hall : Forall (fun c => isColour c = true)
                   (termenv.styles (decorateFaint p rules (termenv.String [])))).
  { apply decorateFaint_styles; [reflexivity | exact Hfg | exact Hbg | constructor]. }
  pose proof (decorateFaint_text p rules (termenv.String s)) as Ht.
  pose proof (decorateFaint_styles_eq p rules (termenv.String s)
                (termenv.String []) eq_refl) as Hst.
  pose proof (decorateFaint_text p rules (termenv.String [])) as Ht0.
  destruct (decorateFaint p rules (termenv.String [])) as [t0 st0].
  destruct (decorateFaint p rules (termenv.String s)) as [t st].
  cbn [termenv.text termenv.styles termenv.String] in *. subst t0 t st.
  pose proof (Styled_wrapper s st0 Hall) as Hw. cbv zeta in Hw.
  rewrite Hw.
  destruct (termenv.Styled _) as [|c0 styled0]; [reflexivity|].
  destruct (Index _ _); reflexivity.
Qed.

Lemma buildANSIWrapper_wraps_witness :
  applyANSIStyles PaletteProfile
    (mkStylePrimitive [] [] [] None [] (Some (lit "212")) None None
       (Some true) None None None None None None None None None None []
       (Some 2%Z) None None None None None)
    (lit "Title")
  = fst (buildANSIWrapper PaletteProfile
           (mkStylePrimitive [] [] [] None [] (Some (lit "212")) None None
              (Some true) None None None None None None None None None None []
              (Some 2%Z) None None None None None))
    ++ lit "Title"
    ++ snd (buildANSIWrapper PaletteProfile
              (mkStylePrimitive [] [] [] None [] (Some (lit "212")) None None
                 (Some true) None None None None None None None None None None
                 [] (Some 2%Z) None None None None None)).
Proof.
  apply (buildANSIWrapper_wraps PaletteProfile
           (mkStylePrimitive [] [] [] None [] (Some (lit "212")) None None
              (Some true) None None None None None None None None None None []
              (Some 2%Z) None None None None None)
           (lit "Title")); reflexivity.
Defined.

(** X16: written to a [bytes.Buffer], [renderKittyScaledText] appends
    exactly the string that [buildOSC66Output] builds for the same style
    and text; the marker path and the direct path emit the same bytes. *)
Theorem renderKittyScaledText_buildOSC66Output (buf : bytes)
    (p : termenv.Profile) (rules : StylePrimitive) (c : ascii) (s : bytes) :
  renderKittyScaledText (W := bytes) buf p rules (c :: s)
  = buf ++ buildOSC66Output p rules (c :: s).
Proof.
  unfold renderKittyScaledText, buildOSC66Output.
  destruct (buildKittyMetadata rules) as [|m meta]; [reflexivity|].
  destruct (buildANSIWrapper p rules) as [prefix suffix].
  unfold WriteString. cbn [Write BufferWriter fst].
  rewrite <- !app_assoc. reflexivity.
Qed.

(** ** More on the metadata *)

Lemma metaPart_intro (key : bytes) (field : option Z) (guard : Z -> bool)
    (parts : list bytes) (x : bytes) :
  In x parts
  \/ (exists v, field = Some v /\ guard v = true /\ x = key ++ lit "=" ++ fmt_d v) ->
  In x (metaPart key field guard parts).
Proof.
  unfold metaPart. intros [Hin | (v & -> & Hg & ->)].
  - destruct field as [v|]; [|exact Hin].
    destruct (guard v); [|exact Hin]. apply in_or_app. left. exact Hin.
  - rewrite Hg. apply in_or_app. right. left. reflexivity.
Qed.

(** X17: the tokens of the metadata are exactly the [k=v] of the fields
    that are set to a value inside the tested range: [s] for 2 to 7, [w]
    up to 7, [n] and [d] up to 15, [v] and [h] up to 2. *)
Theorem kittyParts_exactly (rules : StylePrimitive) (x : bytes) :
  In x (kittyParts rules)
  <-> (exists v, KittyScale rules = Some v /\ (1 < v <= 7)%Z
                 /\ x = lit "s=" ++ fmt_d v)
      \/ (exists v, KittyWidth rules = Some v /\ (v <= 7)%Z
                    /\ x = lit "w=" ++ fmt_d v)
      \/ (exists v, KittyNumerator rules = Some v /\ (v <= 15)%Z
                    /\ x = lit "n=" ++ fmt_d v)
      \/ (exists v, KittyDenominator rules = Some v /\ (v <= 15)%Z
                    /\ x = lit "d=" ++ fmt_d v)
      \/ (exists v, KittyVAlign rules = Some v /\ (v <= 2)%Z
                    /\ x = lit "v=" ++ fmt_d v)
      \/ (exists v, KittyHAlign rules = Some v /\ (v <= 2)%Z
                    /\ x = lit "h=" ++ fmt_d v).
Proof.
  split; [apply kittyParts_in_range|].
  unfold kittyParts.
  intros [(v & Hf & Hr & ->) | [(v & Hf & Hr & ->) | [(v & Hf & Hr & ->)
    | [(v & Hf & Hr & ->) | [(v & Hf & Hr & ->) | (v & Hf & Hr & ->)]]]]].
  - do 5 (apply metaPart_intro; left). apply metaPart_intro. right.
    exists v. repeat split; [exact Hf|].
    apply andb_true_iff. split; [apply Z.ltb_lt | apply Z.leb_le]; lia.
  - do 4 (apply metaPart_intro; left). apply metaPart_intro. right.
    exists v. repeat split; [exact Hf|]. apply Z.leb_le. lia.
  - do 3 (apply metaPart_intro; left). apply metaPart_intro. right.
    exists v. repeat split; [exact Hf|]. apply Z.leb_le. lia.
  - do 2 (apply metaPart_intro; left). apply metaPart_intro. right.
    exists v. repeat split; [exact Hf|]. apply Z.leb_le. lia.
  - apply metaPart_intro; left. apply metaPart_intro. right.
    exists v. repeat split; [exact Hf|]. apply Z.leb_le. lia.
  - apply metaPart_intro. right.
    exists v. repeat split; [exact Hf|]. apply Z.leb_le. lia.
Qed.

(** X18: a scale above 7 is left out of the metadata but still counts as
    text sizing and still reserves rows: for a style whose only scaling
    parameter is such a scale, [hasKittyTextSizing] is true, the OSC 66
    output is the plain ANSI styling without any OSC 66 sequence, and
    [GetKittyScaleRows] asks for [scale - 1] blank lines. *)
Theorem scale_above_7 (p : termenv.Profile) (rules : StylePrimitive)
    (scale : Z) (text : bytes) :
  KittyScale rules = Some scale -> (7 < scale <= int_max)%Z ->
  KittyWidth rules = None -> KittyNumerator rules = None ->
  KittyDenominator rules = None -> KittyVAlign rules = None ->
  KittyHAlign rules = None ->
  hasKittyTextSizing rules = true
  /\ buildOSC66Output p rules text = applyANSIStyles p rules text
  /\ GetKittyScaleRows rules = (scale - 1)%Z.
Proof.
  intros Hs Hr Hw Hn Hd Hv Hh.
  unfold hasKittyTextSizing, buildOSC66Output, buildKittyMetadata, kittyParts,
    GetKittyScaleRows, metaPart.
  rewrite Hs, Hw, Hn, Hd, Hv, Hh. cbn [isSet orb].
  destruct (Z.ltb_spec 1 scale) as [_|]; [|lia].
  destruct (Z.leb_spec scale 7) as [|_]; [lia|]. cbn [andb Join].
  repeat split.
  unfold int_sub, int_of_uint, wrap_int, int_max in *.
  rewrite (Z.mod_small (scale + 2 ^ 63)) by lia.
  rewrite Z.mod_small by lia. lia.
Qed.

Lemma scale_above_7_witness :
  hasKittyTextSizing (scalingStyle (Some 9%Z) None None None None None) = true
  /\ buildOSC66Output PaletteProfile
       (scalingStyle (Some 9%Z) None None None None None) (lit "Title")
     = applyANSIStyles PaletteProfile
         (scalingStyle (Some 9%Z) None None None None None) (lit "Title")
  /\ GetKittyScaleRows (scalingStyle (Some 9%Z) None None None None None)
     = (9 - 1)%Z.
Proof.
  apply (scale_above_7 PaletteProfile
           (scalingStyle (Some 9%Z) None None None None None) 9 (lit "Title"));
    try reflexivity.
  unfold int_max. lia.
Defined.

(** ** More on the capability probe *)

(** X19: the probe is safe on every terminal behaviour: a failure (raw
    mode not available, a read error or timeout) always comes with the
    capability None; the terminal mode is restored exactly when raw mode
    was entered, on the failing paths as on the successful one; and
    without a terminal on standard output nothing is written and no error
    is reported. *)
Theorem DetectKittyTextSizing_safe (t : Terminal) :
  ((DetectKittyTextSizing t).1.1 = KittyTextSizingNone
   \/ (DetectKittyTextSizing t).1.2 = None)
  /\ restored (DetectKittyTextSizing t).2
     = IsTerminal t && negb (isSet (makeRaw t))
  /\ (IsTerminal t = true
      \/ (stdout (DetectKittyTextSizing t).2 = []
          /\ (DetectKittyTextSizing t).1 = (KittyTextSizingNone, None))).
Proof.
  unfold DetectKittyTextSizing.
  destruct (IsTerminal t); cbn [negb andb];
    [|repeat split; [left; reflexivity | right; split; reflexivity]].
  destruct (makeRaw t) as [[msg]|]; cbn [isSet negb];
    [repeat split; [left | left]; reflexivity|].
  destruct (readCPR1 t) as [[r1 c1]|e1];
    [|repeat split; [left | left]; reflexivity].
  destruct (readCPR2 t) as [[r2 c2]|e2];
    [|repeat split; [left | left]; reflexivity].
  destruct (readCPR3 t) as [[r3 c3]|e3];
    [|repeat split; [left | left]; reflexivity].
  repeat split; [right | left]; reflexivity.
Qed.

(** X20: [DetectAndEnableKittyTextSizing] never switches the flag off: the
    flag afterwards is the flag before or-ed with "the result is Full";
    the result is None whenever the probe failed and the probe's
    capability otherwise; the block stack and the buffers are not
    touched. *)
Theorem DetectAndEnableKittyTextSizing_flag (t : Terminal) (st : RenderState) :
  kittyTextSizingEnabled (DetectAndEnableKittyTextSizing t st).2
  = kittyTextSizingEnabled st || isFull (DetectAndEnableKittyTextSizing t st).1
  /\ ((DetectAndEnableKittyTextSizing t st).1 = KittyTextSizingNone
      \/ (DetectKittyTextSizing t).1
         = ((DetectAndEnableKittyTextSizing t st).1, None))
  /\ blockStack (DetectAndEnableKittyTextSizing t st).2 = blockStack st
  /\ buffers (DetectAndEnableKittyTextSizing t st).2 = buffers st.
Proof.
  unfold DetectAndEnableKittyTextSizing.
  destruct (DetectKittyTextSizing t) as [[cap [err|]] tr]; cbn [fst snd].
  - rewrite orb_false_r. repeat split. left. reflexivity.
  - destruct cap; cbn [fst snd isFull SetKittyTextSizingEnabled
                         kittyTextSizingEnabled blockStack buffers];
      rewrite ?orb_false_r, ?orb_true_r; repeat split;
      solve [left; reflexivity | right; reflexivity].
Qed.

(** ** Un-escaping *)

Lemma escapeReplace_cons (b : ascii) (s : list ascii) :
  escapeReplace (b :: s)
  = if byte_eqb b "\"
    then match s with
         | c :: rest =>
             if isEscapable c then c :: escapeReplace rest
             else b :: escapeReplace s
         | [] => [b]
         end
    else b :: escapeReplace s.
Proof. reflexivity. Qed.

Lemma escapeReplace_length (s : list ascii) :
  length (escapeReplace s) <= length s.
Proof.
  induction s as [s IH] using (induction_ltof1 _ (@length ascii)).
  unfold ltof in IH.
  destruct s as [|b s]; [cbn; lia|].
  rewrite escapeReplace_cons.
  pose proof (IH s ltac:(cbn [length]; lia)) as Hs.
  destruct (byte_eqb b "\"); [|cbn [length]; lia].
  destruct s as [|c rest]; [cbn [length]; lia|].
  pose proof (IH rest ltac:(cbn [length]; lia)) as Hrest.
  destruct (isEscapable c); cbn [length] in *; lia.
Qed.

Lemma escapeReplace_cons_plain (c : ascii) (s : list ascii) :
  isEscapable c = false -> escapeReplace (c :: s) = c :: escapeReplace s.
Proof.
  intros Hc. rewrite escapeReplace_cons.
  destruct (byte_eqb c "\") eqn:Hb; [|reflexivity].
  apply byte_eqb_eq in Hb. subst c. discriminate Hc.
Qed.

(** X21: un-escaping inverts escaping: putting a backslash before every
    escapable character of a text and running [escapeReplacer] over the
    result gives the text back; and un-escaping never lengthens a text. *)
Theorem escapeReplace_escapeMarkdown (s : bytes) :
  escapeReplace (escapeMarkdown s) = s
  /\ length (escapeReplace s) <= length s.
Proof.
  split; [|apply escapeReplace_length].
  induction s as [|c s IH]; [reflexivity|].
  cbn [escapeMarkdown flat_map]. fold (escapeMarkdown s).
  destruct (isEscapable c) eqn:Hc.
  - cbn [app]. rewrite escapeReplace_cons. change (byte_eqb "\" "\") with true.
    cbv beta iota. rewrite Hc, IH. reflexivity.
  - cbn [app]. rewrite (escapeReplace_cons_plain c _ Hc), IH. reflexivity.
Qed.

(** ** More on token rendering *)

(** X22: when the token template fails, [doRender] still writes the
    element prefix, the block prefix, the style's prefix and, through the
    deferred calls, the style's suffix and the block suffix; the token is
    not written and the error is returned.  The output is that of the same
    element with an empty token and no template. *)
Theorem doRender_template_failure {W : Type} {WW : Writer W} {TL : TextLibs}
    (e : BaseElement) (w : W) (p : termenv.Profile) (st1 st2 : StylePrimitive)
    (c : ascii) (f s : bytes) (err : error) :
  Format st2 = c :: f ->
  formatToken (Format st2) (Token e) = (s, Some err) ->
  doRender e w p st1 st2
  = (fst (doRender (withoutToken e) w p st1 (withFormat st2 [])), Some err).
Proof.
  intros Hf Herr. unfold doRender. rewrite Herr, Hf. cbn [Format withFormat withoutToken Token ePrefix escapeReplace].
  reflexivity.
Qed.

Lemma doRender_template_failure_witness :
  doRender (TL := BrokenTemplates)
    (mkBaseElement (lit "token") (lit "- ") [] zeroStylePrimitive)
    ([] : bytes) PaletteProfile zeroStylePrimitive
    (mkStylePrimitive [] [] (lit "<") None (lit ">") None None None None None
       None None None None None None None None None (lit "{{.text}") None None
       None None None None)
  = (fst (doRender (TL := BrokenTemplates)
            (withoutToken
               (mkBaseElement (lit "token") (lit "- ") [] zeroStylePrimitive))
            ([] : bytes) PaletteProfile zeroStylePrimitive
            (withFormat
               (mkStylePrimitive [] [] (lit "<") None (lit ">") None None None
                  None None None None None None None None None None None
                  (lit "{{.text}") None None None None None None)
               [])),
     Some (Error (lit "glamour: error parsing template: unexpected EOF"))).
Proof.
  apply (doRender_template_failure (TL := BrokenTemplates)
           (mkBaseElement (lit "token") (lit "- ") [] zeroStylePrimitive)
           ([] : bytes) PaletteProfile zeroStylePrimitive
           (mkStylePrimitive [] [] (lit "<") None (lit ">") None None None None
              None None None None None None None None None None
              (lit "{{.text}") None None None None None None)
           "{"%char (lit "{.text}") []
           (Error (lit "glamour: error parsing template: unexpected EOF")));
    reflexivity.
Defined.

(** ** More on headings *)

Lemma Current_Push (bs : BlockStack) (e : BlockElement) :
  Current (Push bs e) = Some e.
Proof.
  unfold Current, Push. rewrite length_app. cbn [length].
  replace (length bs + 1 - 1) with (length bs) by lia.
  rewrite lookup_app_r by lia. rewrite Nat.sub_diag. reflexivity.
Qed.

Lemma Parent_Push (bs : BlockStack) (e cur : BlockElement) :
  Current bs = Some cur -> Parent (Push bs e) = Some cur.
Proof.
  unfold Current, Parent, Push. intros Hcur.
  pose proof (lookup_lt_Some _ _ _ Hcur) as Hlt.
  rewrite length_app. cbn [length].
  destruct (Nat.ltb_spec (length bs + 1) 2) as [Hl|_]; [lia|].
  replace (length bs + 1 - 2) with (length bs - 1) by lia.
  rewrite lookup_app_l by lia. exact Hcur.
Qed.

(** What [renderText] does to the buffer behind a pointer: it appends. *)
Lemma renderText_BufferRef {TL : TextLibs} (h : Buffers) (a : nat)
    (p : termenv.Profile) (rules : StylePrimitive) (s : bytes) :
  exists out,
    renderText (h, a) p rules s = (<[a := Buffer_String h a ++ out]> h, a).
Proof.
  destruct s as [|c s].
  - exists []. cbn [renderText]. rewrite app_nil_r. f_equal.
    unfold Buffer_String. destruct (h !! a) as [x|] eqn:Hx; cbn [default].
    + symmetry. apply list_insert_id. exact Hx.
    + symmetry. apply list_insert_ge. apply lookup_ge_None. exact Hx.
  - eexists. cbn [renderText]. unfold WriteString.
    cbn [Write BufferRef_Writer fst snd]. reflexivity.
Qed.

(** The heading's level style: the generic heading style cascaded with
    the level's own for levels 1 to 6. *)
Lemma headingRules_levels (e : HeadingElement) (s : StyleConfig) :
  headingRules e s
  = if (1 <=? Level e)%Z && (Level e <=? 6)%Z
    then cascadeStyles
           [Heading s;
            nth (Z.to_nat (Level e - 1)) [H1 s; H2 s; H3 s; H4 s; H5 s; H6 s]
              zeroStyleBlock]
    else Heading s.
Proof.
  unfold headingRules.
  destruct (Z.eqb_spec (Level e) 1) as [->|H1]; [reflexivity|].
  destruct (Z.eqb_spec (Level e) 2) as [->|H2]; [reflexivity|].
  destruct (Z.eqb_spec (Level e) 3) as [->|H3]; [reflexivity|].
  destruct (Z.eqb_spec (Level e) 4) as [->|H4]; [reflexivity|].
  destruct (Z.eqb_spec (Level e) 5) as [->|H5]; [reflexivity|].
  destruct (Z.eqb_spec (Level e) 6) as [->|H6]; [reflexivity|].
  destruct (Z.leb_spec 1 (Level e)); [|reflexivity].
  destruct (Z.leb_spec (Level e) 6); [lia | reflexivity].
Qed.

Lemma cascadeStyles_Margin (l : list StyleBlock) : Margin (cascadeStyles l) = None.
Proof.
  induction l as [|x l IH] using rev_ind; [reflexivity|].
  rewrite cascadeStyles_snoc. exact IH.
Qed.

(** X23: a heading of level 1 to 6 never has a margin: its style comes
    out of [cascadeStyles], which drops margins, so the margin configured
    for the generic heading style or for the level is lost; only a level
    outside 1 to 6 keeps the generic style, margin included. *)
Theorem headingRules_margin (e : HeadingElement) (s : StyleConfig) :
  Margin (headingRules e s)
  = if (1 <=? Level e)%Z && (Level e <=? 6)%Z then None
    else Margin (Heading s).
Proof.
  rewrite headingRules_levels.
  destruct ((1 <=? Level e)%Z && (Level e <=? 6)%Z); [|reflexivity].
  apply cascadeStyles_Margin.
Qed.

(** A successful [Finish] leaves the state that [Reset] and [Pop] make of
    the state it started in. *)
Lemma Finish_success_state {W : Type} {WW : Writer W} {TL : TextLibs}
    {CO : Collaborators} (e : HeadingElement) (w w' : W) (o : Options)
    (st st' : RenderState) :
  HeadingElement_Finish e w o st = Some (w', st', None) ->
  resetAndPop st = Some st'.
Proof.
  unfold HeadingElement_Finish.
  destruct (Current (blockStack st)) as [cur|] eqn:Hcur;
    cbn [mbind option_bind]; [|discriminate].
  destruct (IsKittyTextSizingEnabled st && _).
  - unfold scaledFinish. rewrite Hcur. cbn [mbind option_bind].
    destruct (Parent (blockStack st)); cbn [mbind option_bind]; [|discriminate].
    destruct (resetAndPop st); cbn [mbind option_bind]; [|discriminate].
    intros [= _ <-]. reflexivity.
  - unfold standardFinish. rewrite Hcur. cbn [mbind option_bind].
    destruct (flow_Write _ _) as [[msg]|]; [discriminate|].
    destruct (flow_Close _ _) as [[msg]|]; [discriminate|].
    destruct (MarginWriter_Write _ _ _ _ _ _ _) as [w1 [err|]]; [discriminate|].
    destruct (Parent (blockStack st)); cbn [mbind option_bind]; [|discriminate].
    destruct (resetAndPop st); cbn [mbind option_bind]; [|discriminate].
    intros [= _ <-]. reflexivity.
Qed.

(** X24: a heading is a balanced push and pop.  On a stack with a
    current entry, [Render] reports no error and pushes exactly one entry,
    with a new buffer of its own and the cascaded heading style.  [Finish]
    after it returns, with an error exactly when a step of the standard
    branch fails.  When it returns without an error, the block stack is
    the one from before the heading and the heading's buffer is empty
    again; when it returns an error, the heading's entry is still on the
    stack and its buffer is as [Render] left it.  Nothing is said about
    the other buffers: the writer the renderer passes is itself a block
    buffer, and what [Render] and [Finish] write to it is the writer's. *)
Theorem heading_round_trip {W : Type} {WW : Writer W} {TL : TextLibs}
    {CO : Collaborators} (e : HeadingElement) (w : W) (o : Options)
    (st : RenderState) (cur : BlockElement) :
  Current (blockStack st) = Some cur ->
  exists w1 st1 pushed,
    pushed = mkBlockElement (length (buffers st))
               (cascadeStyle (BlockStyle cur) (headingRules e (Styles o)) false)
    /\ HeadingElement_Render e w o st = Some (w1, st1, None)
    /\ blockStack st1 = Push (blockStack st) pushed
    /\ is_Some (buffers st1 !! Block pushed)
    /\ match finishFailure w1 o st1 pushed with
       | Some (wf, err) =>
           exists st2,
             HeadingElement_Finish e w1 o st1 = Some (wf, st2, Some err)
             /\ blockStack st2 = blockStack st1
             /\ buffers st2 !! Block pushed = buffers st1 !! Block pushed
       | None =>
           exists w2 st2,
             HeadingElement_Finish e w1 o st1 = Some (w2, st2, None)
             /\ blockStack st2 = blockStack st
             /\ buffers st2 !! Block pushed = Some []
       end.
Proof.
  intros Hcur. unfold HeadingElement_Render. rewrite Hcur.
  cbn [mbind option_bind Buffer_new].
  rewrite (Parent_Push _ _ cur Hcur). cbn [mbind option_bind].
  rewrite Current_Push. cbn [mbind option_bind Block BlockStyle].
  destruct (renderText_BufferRef (buffers st ++ [[]]) (length (buffers st))
              (ColorProfile o)
              (primitive (cascadeStyle (BlockStyle cur)
                            (headingRules e (Styles o)) false))
              (Prefix (primitive (headingRules e (Styles o))))) as [out Hout].
  rewrite Hout.
  match goal with |- context [Some (?a, ?b, None)] =>
    set (w1 := a); set (st1 := b) end.
  set (pushed := mkBlockElement (length (buffers st))
                   (cascadeStyle (BlockStyle cur) (headingRules e (Styles o))
                      false)).
  assert (Hlen : 2 <= length (blockStack st1)).
  { subst st1. cbn [blockStack]. unfold Push. rewrite length_app. cbn [length].
    pose proof (lookup_lt_Some _ _ _ Hcur). lia. }
  assert (Hin : length (buffers st) < length (buffers st ++ [[]])).
  { rewrite length_app. cbn [length]. lia. }
  destruct (Finish_outcome e w1 o st1 Hlen) as (c1 & Hc1 & Hres).
  assert (Hc : c1 = pushed).
  { subst st1. cbn [blockStack] in Hc1. rewrite Current_Push in Hc1.
    injection Hc1 as <-. reflexivity. }
  subst c1.
  exists w1, st1, pushed.
  split; [reflexivity|]. split; [reflexivity|]. split; [reflexivity|].
  split.
  { subst st1 pushed. cbn [buffers Block]. apply lookup_lt_is_Some.
    rewrite length_insert. exact Hin. }
  destruct (finishFailure w1 o st1 pushed) as [[wf err]|].
  - exists st1. repeat split. exact Hres.
  - destruct Hres as (w2 & st2 & Hfin & _).
    exists w2, st2. split; [exact Hfin|].
    apply Finish_success_state in Hfin. unfold resetAndPop in Hfin.
    subst st1. cbn [blockStack buffers kittyTextSizingEnabled] in Hfin.
    rewrite Current_Push in Hfin. cbn [mbind option_bind] in Hfin.
    injection Hfin as <-. cbn [blockStack buffers].
    split; [apply Pop_Push|].
    subst pushed. cbn [Block]. unfold Buffer_Reset.
    apply list_lookup_insert_eq. rewrite length_insert. exact Hin.
Qed.

Lemma heading_round_trip_witness :
  exists w1 st1 pushed,
    pushed = mkBlockElement 1
               (cascadeStyle zeroStyleBlock
                  (headingRules (mkHeadingElement 2 false) (Styles plainOptions))
                  false)
    /\ HeadingElement_Render (W := bytes) (TL := AsciiText)
         (mkHeadingElement 2 false) (lit "intro") plainOptions
         (mkRenderState true [mkBlockElement 0 zeroStyleBlock] [lit "doc"])
       = Some (w1, st1, None)
    /\ blockStack st1 = Push [mkBlockElement 0 zeroStyleBlock] pushed
    /\ is_Some (buffers st1 !! Block pushed)
    /\ match
         finishFailure (W := bytes) (CO := PassThrough) w1 plainOptions st1 pushed
       with
       | Some (wf, err) =>
           exists st2,
             HeadingElement_Finish (W := bytes) (TL := AsciiText)
               (CO := PassThrough) (mkHeadingElement 2 false) w1 plainOptions st1
             = Some (wf, st2, Some err)
             /\ blockStack st2 = blockStack st1
             /\ buffers st2 !! Block pushed = buffers st1 !! Block pushed
       | None =>
           exists w2 st2,
             HeadingElement_Finish (W := bytes) (TL := AsciiText)
               (CO := PassThrough) (mkHeadingElement 2 false) w1 plainOptions st1
             = Some (w2, st2, None)
             /\ blockStack st2 = [mkBlockElement 0 zeroStyleBlock]
             /\ buffers st2 !! Block pushed = Some []
       end.
Proof.
  apply (heading_round_trip (W := bytes) (TL := AsciiText) (CO := PassThrough)
           (mkHeadingElement 2 false) (lit "intro") plainOptions
           (mkRenderState true [mkBlockElement 0 zeroStyleBlock] [lit "doc"])
           (mkBlockElement 0 zeroStyleBlock)).
  reflexivity.
Defined.

(** ** The placeholder grid *)

Lemma land_255_range (x : Z) : (0 <= Z.land x 255 < 256)%Z.
Proof.
  change 255%Z with (Z.ones 8). rewrite Z.land_ones by lia.
  apply Z.mod_pos_bound. lia.
Qed.

(** A check on all values below a bound decides a property of them. *)
Lemma below_forallb (P : nat -> bool) (n : nat) :
  forallb P (seq 0 n) = true -> forall k, k < n -> P k = true.
Proof.
  intros H k Hk. rewrite forallb_forall in H. apply H.
  apply in_seq. lia.
Qed.

Lemma lineFeeds_app (s t : bytes) :
  lineFeeds (s ++ t) = lineFeeds s + lineFeeds t.
Proof. apply count_occ_app. Qed.

Lemma lineFeeds_fmt_d_byte (v : Z) :
  (0 <= v < 256)%Z -> lineFeeds (fmt_d v) = 0.
Proof.
  intros Hv.
  assert (H : forallb (fun k => lineFeeds (fmt_d (Z.of_nat k)) =? 0)
                (seq 0 256) = true) by (vm_compute; reflexivity).
  pose proof (below_forallb _ _ H (Z.to_nat v) ltac:(lia)) as Hk.
  cbv beta in Hk. rewrite Z2Nat.id in Hk by lia.
  apply Nat.eqb_eq. exact Hk.
Qed.

Lemma lineFeeds_idColour (code : bytes) (id : Z) :
  lineFeeds code = 0 -> lineFeeds (idColour code id) = 0.
Proof.
  intros Hc. unfold idColour.
  change (termenv.ESC :: lit "[" ++ ?x) with ((termenv.ESC :: lit "[") ++ x).
  rewrite !lineFeeds_app, Hc.
  rewrite !lineFeeds_fmt_d_byte by apply land_255_range.
  reflexivity.
Qed.

Lemma kittyRowColDiacritic_outside (idx : Z) :
  outside idx = true -> kittyRowColDiacritic idx = [].
Proof.
  unfold outside, kittyRowColDiacritic. cbn [length kittyDiacritics Z.of_nat].
  change (Z.of_nat 32) with 32%Z. intros ->. reflexivity.
Qed.

Lemma kittyRowColDiacritic_inside (idx : Z) :
  outside idx = false ->
  kittyRowColDiacritic idx = EncodeRune (nth (Z.to_nat idx) kittyDiacritics 0%Z)
  /\ Z.to_nat idx < 32.
Proof.
  unfold outside, kittyRowColDiacritic.
  change (Z.of_nat (length kittyDiacritics)) with 32%Z. intros H. rewrite H.
  split; [reflexivity|].
  apply orb_false_iff in H as [H1 H2].
  apply Z.ltb_ge in H1. apply Z.leb_gt in H2. lia.
Qed.

Lemma lineFeeds_kittyRowColDiacritic (idx : Z) :
  lineFeeds (kittyRowColDiacritic idx) = 0.
Proof.
  destruct (outside idx) eqn:Ho.
  - rewrite kittyRowColDiacritic_outside by exact Ho. reflexivity.
  - destruct (kittyRowColDiacritic_inside idx Ho) as [-> Hlt].
    assert (H : forallb
                  (fun k => lineFeeds (EncodeRune (nth k kittyDiacritics 0%Z)) =? 0)
                  (seq 0 32) = true) by (vm_compute; reflexivity).
    apply Nat.eqb_eq. exact (below_forallb _ _ H _ Hlt).
Qed.

Lemma lineFeeds_gridCell (fg ul : bytes) (row col : Z) :
  lineFeeds fg = 0 -> lineFeeds ul = 0 -> lineFeeds (gridCell fg ul row col) = 0.
Proof.
  intros Hf Hu. unfold gridCell.
  rewrite !lineFeeds_app, Hf, Hu, !lineFeeds_kittyRowColDiacritic.
  reflexivity.
Qed.

Lemma lineFeeds_cells (f : Z -> bytes) (l : list Z) :
  (forall c, lineFeeds (f c) = 0) -> lineFeeds (flat_map f l) = 0.
Proof.
  intros Hf. induction l as [|c l IH]; [reflexivity|].
  cbn [flat_map]. rewrite lineFeeds_app, Hf, IH. reflexivity.
Qed.

Lemma lineFeeds_rows (f : Z -> bytes) (l : list Z) :
  (forall r, lineFeeds (f r) = 1) -> lineFeeds (flat_map f l) = length l.
Proof.
  intros Hf. induction l as [|r l IH]; [reflexivity|].
  cbn [flat_map length]. rewrite lineFeeds_app, Hf, IH. reflexivity.
Qed.

Lemma upto_length (n : Z) : length (upto n) = Z.to_nat n.
Proof. unfold upto. rewrite length_map, length_seq. reflexivity. Qed.

(** X25: the grid has one line per row, whatever the image, the number of
    columns and the number of rows: it contains exactly [rows] line feeds
    (none when [rows] is negative), no cell contains one, and it ends with
    the reset sequence. *)
Theorem buildKittyPlaceholderGrid_lines (imageID cols rows : Z) :
  lineFeeds (buildKittyPlaceholderGrid imageID cols rows) = Z.to_nat rows
  /\ exists body, buildKittyPlaceholderGrid imageID cols rows = body ++ gridReset
                  /\ length body >= Z.to_nat rows.
Proof.
  unfold buildKittyPlaceholderGrid. cbv zeta. split.
  - rewrite lineFeeds_app.
    rewrite lineFeeds_rows.
    + rewrite upto_length. change (lineFeeds gridReset) with 0. lia.
    + intros r. rewrite lineFeeds_app, lineFeeds_cells; [reflexivity|].
      intros c. apply lineFeeds_gridCell; apply lineFeeds_idColour; reflexivity.
  - eexists. split; [reflexivity|].
    rewrite <- upto_length. generalize (upto rows). intros l.
    induction l as [|r l IH]; cbn [flat_map length]; [lia|].
    rewrite !length_app. cbn [length]. lia.
Qed.

(** X26: the grid encodes only the low 24 bits of the image id: two ids
    that agree on them produce the same grid, so the top byte of a 32-bit
    id is lost. *)
Theorem buildKittyPlaceholderGrid_low_24_bits (imageID cols rows : Z) :
  buildKittyPlaceholderGrid imageID cols rows
  = buildKittyPlaceholderGrid (Z.land imageID 16777215%Z) cols rows.
Proof.
  assert (Hc : forall code, idColour code imageID
                            = idColour code (Z.land imageID 16777215%Z)).
  { intros code. unfold idColour. cbv zeta.
    assert (H16 : Z.land (Z.shiftr (Z.land imageID 16777215%Z) 16%Z) 255%Z
                  = Z.land (Z.shiftr imageID 16%Z) 255%Z).
    { rewrite Z.shiftr_land, <- Z.land_assoc. reflexivity. }
    assert (H8 : Z.land (Z.shiftr (Z.land imageID 16777215%Z) 8%Z) 255%Z
                 = Z.land (Z.shiftr imageID 8%Z) 255%Z).
    { rewrite Z.shiftr_land, <- Z.land_assoc. reflexivity. }
    assert (H0 : Z.land (Z.land imageID 16777215%Z) 255%Z = Z.land imageID 255).
    { rewrite <- Z.land_assoc. reflexivity. }
    rewrite H16, H8, H0. reflexivity. }
  unfold buildKittyPlaceholderGrid. cbv zeta. rewrite <- !Hc. reflexivity.
Qed.

Lemma kittyRowColDiacritic_length (idx : Z) :
  length (kittyRowColDiacritic idx) = if outside idx then 0 else 2.
Proof.
  destruct (outside idx) eqn:Ho.
  - rewrite kittyRowColDiacritic_outside by exact Ho. reflexivity.
  - destruct (kittyRowColDiacritic_inside idx Ho) as [-> Hlt].
    assert (H : forallb
                  (fun k => length (EncodeRune (nth k kittyDiacritics 0%Z)) =? 2)
                  (seq 0 32) = true) by (vm_compute; reflexivity).
    apply Nat.eqb_eq. exact (below_forallb _ _ H _ Hlt).
Qed.

Lemma kittyDiacritics_injective (a b : nat) :
  a < 32 -> b < 32 ->
  EncodeRune (nth a kittyDiacritics 0%Z) = EncodeRune (nth b kittyDiacritics 0%Z) ->
  a = b.
Proof.
  intros Ha Hb Heq.
  assert (H : forallb
                (fun x => forallb
                   (fun y =>
                      if List.list_eq_dec Ascii.ascii_dec
                           (EncodeRune (nth x kittyDiacritics 0%Z))
                           (EncodeRune (nth y kittyDiacritics 0%Z))
                      then x =? y else true)
                   (seq 0 32))
                (seq 0 32) = true) by (vm_compute; reflexivity).
  pose proof (below_forallb _ _ H a Ha) as Hx. cbv beta in Hx.
  pose proof (below_forallb _ _ Hx b Hb) as Hy. cbv beta in Hy.
  destruct (List.list_eq_dec _ _ _) as [_|Hne]; [|contradiction].
  apply Nat.eqb_eq. exact Hy.
Qed.

(** X27: the diacritic of an index tells the 32 indexes 0 to 31 apart and
    nothing else: it is two bytes long there and empty for every other
    index, so two indexes have the same diacritic exactly when they are
    equal or both lie outside 0 to 31 (the cells of column 32 and beyond
    cannot be told apart). *)
Theorem kittyRowColDiacritic_distinct (i j : Z) :
  (kittyRowColDiacritic i = kittyRowColDiacritic j
   <-> i = j \/ (outside i = true /\ outside j = true))
  /\ length (kittyRowColDiacritic i) = (if outside i then 0 else 2).
Proof.
  split; [|apply kittyRowColDiacritic_length].
  pose proof (kittyRowColDiacritic_length i) as Li.
  pose proof (kittyRowColDiacritic_length j) as Lj.
  destruct (outside i) eqn:Hi, (outside j) eqn:Hj.
  - rewrite !kittyRowColDiacritic_outside by assumption.
    split; [intros _; right; split; reflexivity | reflexivity].
  - split.
    + intros Heq. rewrite Heq, Lj in Li. discriminate.
    + intros [->|[_ ?]]; [congruence | discriminate].
  - split.
    + intros Heq. rewrite Heq, Lj in Li. discriminate.
    + intros [->|[? _]]; [congruence | discriminate].
  - destruct (kittyRowColDiacritic_inside i Hi) as [Ei Hlti].
    destruct (kittyRowColDiacritic_inside j Hj) as [Ej Hltj].
    split.
    + intros Heq. left. rewrite Ei, Ej in Heq.
      apply kittyDiacritics_injective in Heq; [|assumption..].
      unfold outside in Hi, Hj.
      apply orb_false_iff in Hi as [Hi _]. apply orb_false_iff in Hj as [Hj _].
      apply Z.ltb_ge in Hi. apply Z.ltb_ge in Hj. lia.
    + intros [->|[? _]]; [reflexivity | discriminate].
Qed.

(** ** Raw mode *)

Lemma land_ldiff_same (x m : Z) : Z.land (Z.ldiff x m) m = 0%Z.
Proof.
  apply Z.bits_inj'. intros n Hn.
  rewrite Z.land_spec, Z.ldiff_spec, Z.bits_0.
  destruct (Z.testbit x n), (Z.testbit m n); reflexivity.
Qed.

Lemma ldiff_ldiff_same (x m : Z) : Z.ldiff (Z.ldiff x m) m = Z.ldiff x m.
Proof.
  apply Z.bits_inj'. intros n Hn.
  rewrite !Z.ldiff_spec.
  destruct (Z.testbit x n), (Z.testbit m n); reflexivity.
Qed.

Lemma land_set_after_clear (x m c : Z) :
  Z.land (Z.lor (Z.ldiff x m) c) m = Z.land c m.
Proof.
  apply Z.bits_inj'. intros n Hn.
  rewrite !Z.land_spec, Z.lor_spec, Z.ldiff_spec.
  destruct (Z.testbit x n), (Z.testbit m n), (Z.testbit c n); reflexivity.
Qed.

Lemma set_after_clear_twice (x m c : Z) :
  Z.lor (Z.ldiff (Z.lor (Z.ldiff x m) c) m) c = Z.lor (Z.ldiff x m) c.
Proof.
  apply Z.bits_inj'. intros n Hn.
  rewrite !Z.lor_spec, !Z.ldiff_spec, Z.lor_spec, Z.ldiff_spec.
  destruct (Z.testbit x n), (Z.testbit m n), (Z.testbit c n); reflexivity.
Qed.

Lemma ldiff_lor_l (a c m : Z) :
  Z.ldiff (Z.lor a c) m = Z.lor (Z.ldiff a m) (Z.ldiff c m).
Proof.
  apply Z.bits_inj'. intros n Hn.
  rewrite Z.lor_spec, !Z.ldiff_spec, Z.lor_spec.
  destruct (Z.testbit a n), (Z.testbit m n), (Z.testbit c n); reflexivity.
Qed.

Lemma land_lor_same (a c : Z) : Z.land (Z.lor a c) c = c.
Proof.
  apply Z.bits_inj'. intros n Hn.
  rewrite Z.land_spec, Z.lor_spec.
  destruct (Z.testbit a n), (Z.testbit c n); reflexivity.
Qed.

Lemma ldiff_set_after_clear (x m c : Z) :
  Z.ldiff (Z.lor (Z.ldiff x m) c) (Z.lor m c) = Z.ldiff x (Z.lor m c).
Proof.
  apply Z.bits_inj'. intros n Hn.
  rewrite !Z.ldiff_spec, !Z.lor_spec, Z.ldiff_spec.
  destruct (Z.testbit x n), (Z.testbit m n), (Z.testbit c n); reflexivity.
Qed.

(** X28: [makeRaw] and [restoreTerminal] are a save and restore, on Unix
    and on Windows, whatever calls fail: [makeRaw] returns a state exactly
    when it returns no error; with a state the terminal is in raw mode and
    the state holds the settings from before; without one the settings
    are untouched, and [restoreTerminal] then does nothing and reports no
    error; and after [restoreTerminal] the settings are the original ones
    unless it reports an error, in which case they are as [makeRaw] left
    them. *)
Theorem makeRaw_restoreTerminal :
  (forall tty : Unix.Tty,
     let '(tty1, state, err) := Unix.makeRaw tty in
     let '(tty2, err2) := Unix.restoreTerminal tty1 state in
     isSet state = negb (isSet err)
     /\ state = (if isSet state
                 then Some (Unix.mkTerminalState (Unix.settings tty)) else None)
     /\ Unix.settings tty1
        = (if isSet state then Unix.rawTermios (Unix.settings tty)
           else Unix.settings tty)
     /\ Unix.settings tty2
        = (if isSet err2 then Unix.settings tty1 else Unix.settings tty)
     /\ (if isSet state then True else tty2 = tty1 /\ err2 = None))
  /\ (forall con : Windows.Console,
        let '(con1, state, err) := Windows.makeRaw con in
        let '(con2, err2) := Windows.restoreTerminal con1 state in
        isSet state = negb (isSet err)
        /\ state = (if isSet state
                    then Some (Windows.mkTerminalState (Windows.consoleMode con))
                    else None)
        /\ Windows.consoleMode con1
           = (if isSet state then Windows.rawMode (Windows.consoleMode con)
              else Windows.consoleMode con)
        /\ Windows.consoleMode con2
           = (if isSet err2 then Windows.consoleMode con1
              else Windows.consoleMode con)
        /\ (if isSet state then True else con2 = con1 /\ err2 = None)).
Proof.
  split.
  - intros [t fs]. unfold Unix.makeRaw, Unix.IoctlGetTermios.
    cbn [Unix.faults Unix.settings].
    destruct fs as [|[e1|] [|[e2|] [|[e3|] fs]]];
      cbn [Unix.IoctlSetTermios Unix.restoreTerminal Unix.faults Unix.settings
           Unix.termios isSet negb];
      repeat split; reflexivity.
  - intros [m fs]. unfold Windows.makeRaw, Windows.GetConsoleMode.
    cbn [Windows.faults Windows.consoleMode].
    destruct fs as [|[e1|] [|[e2|] [|[e3|] fs]]];
      cbn [Windows.SetConsoleMode Windows.restoreTerminal Windows.faults
           Windows.consoleMode Windows.mode isSet negb];
      repeat split; reflexivity.
Qed.

(** X29: raw mode clears the listed flags and nothing else.  On Unix the
    input, output and local flags lose exactly the masked bits, the
    character size becomes CS8 with parity off and all other control bits
    kept, and the line discipline and the speeds are kept; on Windows the
    echo, line and processed input bits are cleared and virtual terminal
    input is set, other bits kept.  On both, raw mode of raw mode is raw
    mode. *)
Theorem rawTermios_flags (t : Unix.Termios) (mode : Z) :
  (Z.land (Unix.Iflag (Unix.rawTermios t)) Unix.inputMask = 0%Z
   /\ Z.land (Unix.Oflag (Unix.rawTermios t)) Unix.OPOST = 0%Z
   /\ Z.land (Unix.Lflag (Unix.rawTermios t)) Unix.localMask = 0%Z
   /\ Z.land (Unix.Cflag (Unix.rawTermios t)) Unix.controlMask = Unix.CS8)
  /\ (Z.ldiff (Unix.Iflag (Unix.rawTermios t)) Unix.inputMask
      = Z.ldiff (Unix.Iflag t) Unix.inputMask
      /\ Z.ldiff (Unix.Oflag (Unix.rawTermios t)) Unix.OPOST
         = Z.ldiff (Unix.Oflag t) Unix.OPOST
      /\ Z.ldiff (Unix.Lflag (Unix.rawTermios t)) Unix.localMask
         = Z.ldiff (Unix.Lflag t) Unix.localMask
      /\ Z.ldiff (Unix.Cflag (Unix.rawTermios t)) Unix.controlMask
         = Z.ldiff (Unix.Cflag t) Unix.controlMask
      /\ Unix.Line (Unix.rawTermios t) = Unix.Line t
      /\ Unix.Ispeed (Unix.rawTermios t) = Unix.Ispeed t
      /\ Unix.Ospeed (Unix.rawTermios t) = Unix.Ospeed t)
  /\ Unix.rawTermios (Unix.rawTermios t) = Unix.rawTermios t
  /\ Z.land (Windows.rawMode mode) Windows.inputMask = 0%Z
  /\ Z.land (Windows.rawMode mode) Windows.ENABLE_VIRTUAL_TERMINAL_INPUT
     = Windows.ENABLE_VIRTUAL_TERMINAL_INPUT
  /\ Z.ldiff (Windows.rawMode mode)
       (Z.lor Windows.inputMask Windows.ENABLE_VIRTUAL_TERMINAL_INPUT)
     = Z.ldiff mode
         (Z.lor Windows.inputMask Windows.ENABLE_VIRTUAL_TERMINAL_INPUT)
  /\ Windows.rawMode (Windows.rawMode mode) = Windows.rawMode mode.
Proof.
  destruct t as [i o c l ln cc isp osp].
  unfold Unix.rawTermios, Windows.rawMode.
  cbn [Unix.Iflag Unix.Oflag Unix.Cflag Unix.Lflag Unix.Line Unix.Cc
       Unix.Ispeed Unix.Ospeed].
  repeat split.
  - apply land_ldiff_same.
  - apply land_ldiff_same.
  - apply land_ldiff_same.
  - rewrite land_set_after_clear. reflexivity.
  - apply ldiff_ldiff_same.
  - apply ldiff_ldiff_same.
  - apply ldiff_ldiff_same.
  - rewrite ldiff_lor_l.
    change (Z.ldiff Unix.CS8 Unix.controlMask) with 0%Z.
    rewrite Z.lor_0_r. apply ldiff_ldiff_same.
  - f_equal; try apply ldiff_ldiff_same.
    + apply set_after_clear_twice.
    + rewrite (list_insert_insert_ne _ Unix.VMIN Unix.VTIME) by discriminate.
      rewrite !list_insert_insert_eq. reflexivity.
  - rewrite land_set_after_clear. reflexivity.
  - apply land_lor_same.
  - apply ldiff_set_after_clear.
  - apply set_after_clear_twice.
Qed.

(** ** A scaled heading, from [Finish] to the decoder *)

(** On a buffer, [renderText] appends what it writes to an empty one. *)
Lemma renderText_bytes {TL : TextLibs} (w : bytes) (p : termenv.Profile)
    (rules : StylePrimitive) (s : bytes) :
  renderText w p rules s = w ++ renderText [] p rules s.
Proof.
  destruct s as [|c s]; cbn [renderText].
  - rewrite app_nil_r. reflexivity.
  - unfold WriteString. cbn [Write BufferWriter fst]. reflexivity.
Qed.

Lemma writeNewlines_bytes (n : nat) (w : bytes) :
  writeNewlines n w = w ++ repeat "010"%char n.
Proof.
  revert w. induction n as [|n IH]; intros w; cbn [writeNewlines repeat].
  - rewrite app_nil_r. reflexivity.
  - rewrite IH. unfold WriteString. cbn [Write BufferWriter fst].
    rewrite <- app_assoc. reflexivity.
Qed.

(** X30: the scaled branch of [Finish] and the decoder fit together.  With
    text sizing enabled and a heading style that carries a scaling
    parameter, [Finish] on a buffer appends the marker of the OSC 66
    output of the heading text (its buffer without colour codes, plus the
    style's suffix), then the block suffix and the extra line feeds, and
    reports no error; when none of these pieces, nor the text already in
    the buffer, contains the marker's opening sentinel,
    [DecodeKittyTextSizeMarkers] turns the result into the same text with
    the OSC 66 output in place of the marker. *)
Theorem Finish_scaled_marker_decodes {TL : TextLibs} {CO : Collaborators}
    (e : HeadingElement) (w : bytes) (o : Options) (st : RenderState)
    (cur par : BlockElement) (osc tail : bytes) :
  Current (blockStack st) = Some cur ->
  Parent (blockStack st) = Some par ->
  kittyTextSizingEnabled st = true ->
  hasKittyTextSizing (primitive (BlockStyle cur)) = true ->
  osc = buildOSC66Output (ColorProfile o) (primitive (BlockStyle cur))
          (StripANSI (Buffer_String (buffers st) (Block cur))
             ++ Suffix (primitive (BlockStyle cur))) ->
  tail = renderText [] (ColorProfile o) (primitive (BlockStyle par))
           (BlockSuffix (primitive (BlockStyle cur)))
         ++ repeat "010"%char
              (Z.to_nat (GetKittyScaleRows (primitive (BlockStyle cur)))) ->
  Index (w ++ osc ++ tail) markerPrefix = None ->
  exists st',
    HeadingElement_Finish e w o st = Some (w ++ kittyMarker osc ++ tail, st', None)
    /\ DecodeKittyTextSizeMarkers (w ++ kittyMarker osc ++ tail)
       = Returns (w ++ osc ++ tail).
Proof.
  intros Hcur Hpar Hen Hhas Hosc Htail Hidx.
  rewrite (Finish_branch e w o st cur Hcur), Hen, Hhas. cbn [andb].
  unfold scaledFinish, resetAndPop. rewrite Hcur, Hpar.
  cbn [mbind option_bind]. eexists. split.
  - f_equal. f_equal. f_equal.
    rewrite writeNewlines_bytes, renderText_bytes.
    unfold WriteString. cbn [Write BufferWriter fst].
    rewrite <- Hosc, Htail, <- !app_assoc. reflexivity.
  - rewrite (Decode_continue _ _ (decodeStep_kittyMarker w osc tail Hidx)).
    apply Decode_break. apply decodeStep_no_marker. exact Hidx.
Qed.

Lemma Finish_scaled_marker_decodes_witness :
  exists st',
    HeadingElement_Finish (TL := AsciiText) (CO := PassThrough)
      (mkHeadingElement 1 true) (lit "intro") plainOptions
      (inHeading true (scalingStyle (Some 2%Z) None None None None None)
         (lit "Title"))
    = Some (lit "intro"
              ++ kittyMarker
                   (buildOSC66Output PaletteProfile
                      (scalingStyle (Some 2%Z) None None None None None)
                      (lit "Title"))
              ++ ["010"%char],
            st', None)
    /\ DecodeKittyTextSizeMarkers
         (lit "intro"
            ++ kittyMarker
                 (buildOSC66Output PaletteProfile
                    (scalingStyle (Some 2%Z) None None None None None)
                    (lit "Title"))
            ++ ["010"%char])
       = Returns
           (lit "intro"
              ++ buildOSC66Output PaletteProfile
                   (scalingStyle (Some 2%Z) None None None None None)
                   (lit "Title")
              ++ ["010"%char]).
Proof.
  apply (Finish_scaled_marker_decodes (TL := AsciiText) (CO := PassThrough)
           (mkHeadingElement 1 true) (lit "intro") plainOptions
           (inHeading true (scalingStyle (Some 2%Z) None None None None None)
              (lit "Title"))
           (mkBlockElement 1
              (mkStyleBlock (scalingStyle (Some 2%Z) None None None None None)
                 None None None))
           (mkBlockElement 0 zeroStyleBlock)
           (buildOSC66Output PaletteProfile
              (scalingStyle (Some 2%Z) None None None None None) (lit "Title"))
           ["010"%char]);
    reflexivity.
Defined.
